(** * Verity: the linear cube-lifetime model and its chart

    A shallow embedding of [doc/plot_linear_lifetime.py].

    The script evaluates one straight line, [cube_lifetime], over numpy arrays
    and hands the result to matplotlib.  Python numbers are duck-typed: the
    body of [cube_lifetime] is a sequence of [-], [/], [*] and [+] that runs
    on whatever numbers it is given.  The embedding therefore states the
    function once over an interface of numbers ([PyNumber]) and gives two
    instances:

    - [Binary64], IEEE-754 double precision, the arithmetic the script really
      runs in (Python [float], numpy [float64]), carried by Rocq's primitive
      floats;
    - [Fraction], exact rationals in lowest terms (Python's
      [fractions.Fraction]), the arithmetic without rounding.

    With the default calibration values, which are Python [int]s, the
    script's call [cube_lifetime(x)] divides two [int]s and so computes in
    binary64 whatever [x] is; [model] at the [Fraction] instance is the call
    with the four calibration values passed as fractions, the line without
    rounding.

    The chart itself (numpy's [linspace] and [arange], [max], [int], the
    matplotlib calls) is embedded over binary64 only, on the binary64
    numbers and arrays the script passes.

    What a Python caller can pass is wider than either instance: an [int]
    of any size, or a numpy array, which is a mutable object.
    [py_cube_lifetime] is the same body on such objects, with Python's rules
    for an [int] that meets a [float] and with the arrays in a store; it is
    where the errors and the effects of a call are read. *)

From Stdlib Require Import Floats ZArith QArith Qabs Qcanon Qpower Lqa List Bool String Lia.
From Stdlib Require Import DecimalString.
Import ListNotations.


(** ** Python exceptions and the result of a call *)

Inductive exn : Type :=
| ZeroDivisionError
| ValueError
| OverflowError.

Inductive result (A : Type) : Type :=
| Ok (a : A)
| Raise (e : exn).

Arguments Ok {A} a.
Arguments Raise {A} e.

Definition bind {A B : Type} (r : result A) (k : A -> result B) : result B :=
  match r with
  | Ok a => k a
  | Raise e => Raise e
  end.

Declare Scope py_scope.
Delimit Scope py_scope with py.
Notation "x <- r ;; k" := (bind r (fun x => k))
  (at level 61, r at next level, right associativity) : py_scope.

(** ** The numbers the script computes with *)

Class PyNumber (T : Type) : Type := {
  (** a Python [int] literal seen as a [T] *)
  of_int : Z -> T;
  sub : T -> T -> T;
  mul : T -> T -> T;
  add : T -> T -> T;
  (** the quotient when the divisor is not zero *)
  quot : T -> T -> T;
  (** [y == 0], the test behind [ZeroDivisionError] *)
  is_zero : T -> bool;
  (** [x < y] *)
  lt : T -> T -> bool
}.

(** Python's [x / y] on scalars. *)
Definition truediv {T : Type} `{PyNumber T} (x y : T) : result T :=
  if is_zero y then Raise ZeroDivisionError else Ok (quot x y).

(** binary64: [of_int] rounds to nearest even; it is exact on every literal
    of the script (all below [2^53]).  Beyond the binary64 range the
    rounding gives an infinity, where Python's own conversion of an [int]
    raises [OverflowError]: that conversion is [int_as_double] below. *)
Definition float_of_int (z : Z) : float :=
  SF2Prim (binary_normalize prec emax z 0 false).

#[export] Instance Binary64 : PyNumber float := {
  of_int := float_of_int;
  sub := PrimFloat.sub;
  mul := PrimFloat.mul;
  add := PrimFloat.add;
  quot := PrimFloat.div;
  is_zero := fun y => PrimFloat.eqb y 0%float;
  lt := PrimFloat.ltb
}.

(** exact rationals *)
Definition Qc_of_int (z : Z) : Qc := Q2Qc (inject_Z z).

Definition Qc_ltb (x y : Qc) : bool :=
  match (x ?= y)%Qc with Lt => true | _ => false end.

#[export] Instance Fraction : PyNumber Qc := {
  of_int := Qc_of_int;
  sub := Qcminus;
  mul := Qcmult;
  add := Qcplus;
  quot := Qcdiv;
  is_zero := fun y => if Qc_eq_dec y (Qc_of_int 0) then true else false;
  lt := Qc_ltb
}.

(** ** Module constants (lines 5-6) *)

Definition epochs_per_day : Z := 16.
Definition epoch_increments : Z := 80.

(** ** The lifetime model (lines 9-13) *)

Section LifetimeModel.
Context {T : Type} `{PyNumber T}.
Local Open Scope py_scope.

(** [def cube_lifetime(x, e1, e2, c1, c2)] on a scalar [x]. *)
Definition cube_lifetime (x e1 e2 c1 c2 : T) : result T :=
  m <- truediv (sub e2 e1) (sub c2 c1) ;;
  let b := sub e1 (mul m c1) in
  Ok (add (mul m x) b).

(** The same body when [x] is a numpy array: [m * x] and [... + b]
    broadcast the scalars [m] and [b] over the elements. *)
Definition cube_lifetime_nd (x : list T) (e1 e2 c1 c2 : T) : result (list T) :=
  m <- truediv (sub e2 e1) (sub c2 c1) ;;
  let b := sub e1 (mul m c1) in
  Ok (map (fun v => add v b) (map (fun v => mul m v) x)).

(** The defaults of the signature: [e1=0, e2=960, c1=10, c2=80]. *)
Definition e1_default : T := of_int 0.
Definition e2_default : T := of_int 960.
Definition c1_default : T := of_int 10.
Definition c2_default : T := of_int 80.

(** [cube_lifetime(x)], the call the script makes. *)
Definition model (x : T) : result T :=
  cube_lifetime x e1_default e2_default c1_default c2_default.

Definition model_nd (x : list T) : result (list T) :=
  cube_lifetime_nd x e1_default e2_default c1_default c2_default.

(** Slope and intercept of the default line, as the body computes them. *)
Definition slope : T := quot (sub e2_default e1_default) (sub c2_default c1_default).
Definition intercept : T := sub e1_default (mul slope c1_default).
End LifetimeModel.

(** The unit conversion [v / epochs_per_day] of lines 41 and 46. *)
Definition epochs_to_days {T : Type} `{PyNumber T} (v : T) : T :=
  quot v (of_int epochs_per_day).

(** ** What the script takes from Python and numpy (binary64) *)

Local Open Scope py_scope.

Fixpoint mapM {A B : Type} (f : A -> result B) (l : list A) : result (list B) :=
  match l with
  | [] => Ok []
  | a :: l' => b <- f a ;; bs <- mapM f l' ;; Ok (b :: bs)
  end.

Definition float_of_nat (n : nat) : float := float_of_int (Z.of_nat n).

(** The integer part of a finite binary64 number, towards zero. *)
Definition trunc_SF (v : spec_float) : result Z :=
  match v with
  | S754_zero _ => Ok 0%Z
  | S754_finite s m e => Ok (cond_Zopp s (Z.shiftl (Zpos m) e))
  | S754_infinity _ => Raise OverflowError
  | S754_nan => Raise ValueError
  end.

(** Python's [int(y)] on a float: truncation towards zero. *)
Definition py_int (y : float) : result Z := trunc_SF (Prim2SF y).

(** numpy's [_arange_safe_ceil_to_intp]: the least integer not below a
    double, as an array length.  A NaN cannot be a length, and neither can
    a value beyond the index type ([intp], 64 bits); [np.arange] reports
    both as [ValueError]. *)
Definition safe_ceil_to_intp (v : spec_float) : result Z :=
  match v with
  | S754_zero _ => Ok 0%Z
  | S754_finite s m e =>
      let c := if s then Z.opp (Z.shiftl (Zpos m) e)
               else Z.opp (Z.shiftl (Zneg m) e) in
      if ((c <? - 2 ^ 63) || (2 ^ 63 <? c))%Z then Raise ValueError else Ok c
  | S754_infinity _ => Raise ValueError
  | S754_nan => Raise ValueError
  end.

(** Python's [f"{n}"] on an [int]. *)
Definition str (n : Z) : string := NilZero.string_of_int (Z.to_int n).

(** Python's built-in [max] over a sequence: the first element is kept
    until a later one compares greater. *)
Fixpoint max_from (cur : float) (l : list float) : float :=
  match l with
  | [] => cur
  | v :: l' => max_from (if PrimFloat.ltb cur v then v else cur) l'
  end.

Definition py_max (l : list float) : result float :=
  match l with
  | [] => Raise ValueError
  | v :: l' => Ok (max_from v l')
  end.

(** [y[-1] = stop] *)
Definition set_last (y : list float) (stop : float) : list float :=
  match y with
  | [] => []
  | _ => removelast y ++ [stop]
  end.

(** [numpy.linspace(start, stop, num)] with the default [endpoint=True]:
    [arange(0, num) * step + start] with [step = (stop - start) / (num - 1)],
    and the last element overwritten by [stop]. *)
Definition linspace (start stop : float) (num : nat) : list float :=
  let div := (num - 1)%nat in
  let delta := PrimFloat.sub stop start in
  let y := map float_of_nat (seq 0 num) in
  let y :=
    match div with
    | O => map (fun v => PrimFloat.mul v delta) y
    | _ =>
        let step := PrimFloat.div delta (float_of_nat div) in
        if PrimFloat.eqb step 0%float
        then map (fun v => PrimFloat.mul (PrimFloat.div v (float_of_nat div)) delta) y
        else map (fun v => PrimFloat.mul v step) y
    end in
  let y := map (fun v => PrimFloat.add v start) y in
  if (1 <? num)%nat then set_last y stop else y.

(** [numpy.arange(start, stop, step)] with float64 operands, as the script
    calls it (numpy's [_calc_length] and [PyArray_ArangeObj]).  The length
    is [ceil((stop - start) / step)]; when that quotient is a zero although
    [stop - start] is not (underflow, or an infinite step), the length is 1
    for [+0.0] and 0 for [-0.0].  A length of [2^60] doubles or more is
    refused as too big an array; below that the model allocates whatever is
    asked, memory being no part of it.  The first two elements are [start]
    and [start + step], the others [start + i * delta] with
    [delta = (start + step) - start]. *)
Definition arange (start stop step : float) : result (list float) :=
  let span := PrimFloat.sub stop start in
  let val := PrimFloat.div span step in
  len <- safe_ceil_to_intp (Prim2SF val) ;;
  let len :=
    if PrimFloat.eqb val 0%float && negb (PrimFloat.eqb span 0%float)
    then match Prim2SF val with S754_zero true => 0%Z | _ => 1%Z end
    else len in
  if (2 ^ 60 <=? len)%Z then Raise ValueError
  else
    let next := PrimFloat.add start step in
    let delta := PrimFloat.sub next start in
    Ok (map (fun i => match i with
                      | O => start
                      | S O => next
                      | _ => PrimFloat.add start (PrimFloat.mul (float_of_nat i) delta)
                      end)
            (seq 0 (Z.to_nat len))).

(** ** Module-level values of the script (lines 16-21, 36, 41, 49) *)

Definition x_values : list float := linspace (of_int 10) (of_int 80) 500.

Definition challenge_points : list Z := [10; 15; 20; 25; 30; 35; 40; 45; 50]%Z.

(** [cube_lifetime(x_values)] *)
Definition y_values : result (list float) := model_nd x_values.

(** [cube_lifetime(challenge_points)]: multiplying the [int64] array by the
    float [m] turns its elements into [float64]. *)
Definition y_values_points : result (list float) :=
  model_nd (map float_of_int challenge_points).

(** [np.arange(0, max(y_values) + epoch_increments, epoch_increments)] *)
Definition y_ticks_epochs : result (list float) :=
  ys <- y_values ;;
  top <- py_max ys ;;
  arange (of_int 0) (PrimFloat.add top (of_int epoch_increments))
         (of_int epoch_increments).

(** [y_ticks_epochs / epochs_per_day] *)
Definition y_ticks_days : result (list float) :=
  ticks <- y_ticks_epochs ;;
  Ok (map epochs_to_days ticks).

Definition additional_x_ticks : list Z :=
  [10; 15; 20; 25; 30; 35; 40; 45; 50; 55; 60; 65; 70; 75; 80]%Z.

(** ** The matplotlib objects the script builds *)

Record Line2D : Type := {
  xdata : list float;
  ydata : list float;
  fmt : string;
  label : string
}.

Record Text : Type := {
  text : string;
  xy : float * float;
  xytext : Z * Z
}.

Record Axes : Type := {
  lines : list Line2D;
  texts : list Text;
  xticks : option (list Z);
  yticks : option (list float);
  yticklabels : option (list string);
  ylim : option (float * float);
  xlabel : string;
  ylabel : string;
  title : string;
  legend : option string
}.

Record Figure : Type := { ax1 : Axes; ax2 : Axes }.

Definition new_axes : Axes :=
  {| lines := []; texts := []; xticks := None; yticks := None;
     yticklabels := None; ylim := None; xlabel := ""; ylabel := "";
     title := ""; legend := None |}.

Definition plot (ax : Axes) (x y : list float) (f l : string) : Axes :=
  {| lines := lines ax ++ [{| xdata := x; ydata := y; fmt := f; label := l |}];
     texts := texts ax; xticks := xticks ax; yticks := yticks ax;
     yticklabels := yticklabels ax; ylim := ylim ax; xlabel := xlabel ax;
     ylabel := ylabel ax; title := title ax; legend := legend ax |}.

Definition annotate (ax : Axes) (s : string) (p : float * float) (off : Z * Z) : Axes :=
  {| lines := lines ax;
     texts := texts ax ++ [{| text := s; xy := p; xytext := off |}];
     xticks := xticks ax; yticks := yticks ax;
     yticklabels := yticklabels ax; ylim := ylim ax; xlabel := xlabel ax;
     ylabel := ylabel ax; title := title ax; legend := legend ax |}.

Definition set_xticks (ax : Axes) (t : list Z) : Axes :=
  {| lines := lines ax; texts := texts ax; xticks := Some t; yticks := yticks ax;
     yticklabels := yticklabels ax; ylim := ylim ax; xlabel := xlabel ax;
     ylabel := ylabel ax; title := title ax; legend := legend ax |}.

Definition set_yticks (ax : Axes) (t : list float) : Axes :=
  {| lines := lines ax; texts := texts ax; xticks := xticks ax; yticks := Some t;
     yticklabels := yticklabels ax; ylim := ylim ax; xlabel := xlabel ax;
     ylabel := ylabel ax; title := title ax; legend := legend ax |}.

Definition set_yticklabels (ax : Axes) (l : list string) : Axes :=
  {| lines := lines ax; texts := texts ax; xticks := xticks ax; yticks := yticks ax;
     yticklabels := Some l; ylim := ylim ax; xlabel := xlabel ax;
     ylabel := ylabel ax; title := title ax; legend := legend ax |}.

Definition set_ylim (ax : Axes) (lo hi : float) : Axes :=
  {| lines := lines ax; texts := texts ax; xticks := xticks ax; yticks := yticks ax;
     yticklabels := yticklabels ax; ylim := Some (lo, hi); xlabel := xlabel ax;
     ylabel := ylabel ax; title := title ax; legend := legend ax |}.

Definition set_xlabel (ax : Axes) (s : string) : Axes :=
  {| lines := lines ax; texts := texts ax; xticks := xticks ax; yticks := yticks ax;
     yticklabels := yticklabels ax; ylim := ylim ax; xlabel := s;
     ylabel := ylabel ax; title := title ax; legend := legend ax |}.

Definition set_ylabel (ax : Axes) (s : string) : Axes :=
  {| lines := lines ax; texts := texts ax; xticks := xticks ax; yticks := yticks ax;
     yticklabels := yticklabels ax; ylim := ylim ax; xlabel := xlabel ax;
     ylabel := s; title := title ax; legend := legend ax |}.

Definition set_title (ax : Axes) (s : string) : Axes :=
  {| lines := lines ax; texts := texts ax; xticks := xticks ax; yticks := yticks ax;
     yticklabels := yticklabels ax; ylim := ylim ax; xlabel := xlabel ax;
     ylabel := ylabel ax; title := s; legend := legend ax |}.

Definition set_legend (ax : Axes) (loc : string) : Axes :=
  {| lines := lines ax; texts := texts ax; xticks := xticks ax; yticks := yticks ax;
     yticklabels := yticklabels ax; ylim := ylim ax; xlabel := xlabel ax;
     ylabel := ylabel ax; title := title ax; legend := Some loc |}.

(** ** The script's drawing steps *)

(** Lines 30-33: one annotation and one red marker per challenge point. *)
Fixpoint annotate_points (ax : Axes) (pts : list (Z * float)) : result Axes :=
  match pts with
  | [] => Ok ax
  | (x, y) :: rest =>
      n <- py_int y ;;
      let ax := annotate ax (str n) (float_of_int x, y) (0, 10)%Z in
      let ax := plot ax [float_of_int x] [y] "ro" "" in
      annotate_points ax rest
  end.

(** Lines 24-37: the primary axes, up to [ax1.set_yticks]. *)
Definition primary_axes : result Axes :=
  ys <- y_values ;;
  ps <- y_values_points ;;
  let ax := plot new_axes x_values ys "" "Cube Lifetime (Epochs)" in
  ax <- annotate_points ax (combine challenge_points ps) ;;
  ticks <- y_ticks_epochs ;;
  Ok (set_yticks ax ticks).

Section Chart.
(** [ax.get_ylim()]: the limits matplotlib displays for an axes, its own
    autoscaling rule unless limits were set. *)
Variable get_ylim : Axes -> float * float.

(** Lines 40-46: the twin axes in days. *)
Definition secondary_axes (ax1 : Axes) : result Axes :=
  days <- y_ticks_days ;;
  let ax := set_yticks new_axes days in
  labels <- mapM (fun tick => n <- py_int tick ;; Ok (str n ++ "d")%string) days ;;
  let ax := set_yticklabels ax labels in
  Ok (set_ylim ax (epochs_to_days (fst (get_ylim ax1)))
                  (epochs_to_days (snd (get_ylim ax1)))).

(** The whole script, lines 24-59.  [plt.title] goes to the current axes,
    which is the twin once it exists. *)
Definition chart : result Figure :=
  a1 <- primary_axes ;;
  a2 <- secondary_axes a1 ;;
  let a1 := set_xticks a1 additional_x_ticks in
  let a1 := set_xlabel a1 "Challenge Level (Bits)" in
  let a1 := set_ylabel a1 "Cube Lifetime (Epochs)" in
  let a2 := set_ylabel a2 "Cube Lifetime (Days)" in
  let a2 := set_title a2 "Cube Lifetime Function" in
  let a1 := set_legend a1 "upper left" in
  Ok {| ax1 := a1; ax2 := a2 |}.
End Chart.

(** ** The spec's reading of the annotation, for comparison *)

(** The nearest integer to a finite binary64 number, ties to the even one
    (Python's [round]). *)
Definition nearest_SF (v : spec_float) : result Z :=
  match v with
  | S754_zero _ => Ok 0%Z
  | S754_finite s m e =>
      let q := Z.shiftl (Zpos m) e in
      let twice_rest := (2 * (Zpos m - Z.shiftl q (- e)))%Z in
      let unit := Z.shiftl 1 (- e) in
      let up :=
        if (e >=? 0)%Z then false
        else match (twice_rest ?= unit)%Z with
             | Lt => false
             | Gt => true
             | Eq => Z.odd q
             end in
      Ok (cond_Zopp s (if up then q + 1 else q)%Z)
  | S754_infinity _ => Raise OverflowError
  | S754_nan => Raise ValueError
  end.

Definition nearest_int (y : float) : result Z := nearest_SF (Prim2SF y).

(** ** Reading the chart *)

(** Where a value sits along a linear axis, as a fraction of the displayed
    range [lim] (matplotlib's linear scale). *)
Definition axis_fraction {T : Type} `{PyNumber T} (lim : T * T) (v : T) : T :=
  quot (sub v (fst lim)) (sub (snd lim) (fst lim)).

(** The exact value of a finite binary64 number (0 for the others). *)
Definition SF2Q (v : spec_float) : Q :=
  match v with
  | S754_finite s m e => (inject_Z (cond_Zopp s (Zpos m)) * (2 # 1) ^ e)%Q
  | _ => 0%Q
  end.

Definition value_Q (y : float) : Q := SF2Q (Prim2SF y).

(** Strictly increasing, with binary64 [<]. *)
Fixpoint increasing_from (v : float) (l : list float) : bool :=
  match l with
  | [] => true
  | w :: l' => PrimFloat.ltb v w && increasing_from w l'
  end.

Definition increasing (l : list float) : bool :=
  match l with
  | [] => true
  | v :: l' => increasing_from v l'
  end.

(** ** Inputs the properties below are stated at *)

(** The integer parts of the nine marker values. *)
Definition marker_ints : list Z := [0; 68; 137; 205; 274; 342; 411; 480; 548]%Z.

(** Two binary64 inputs, two and three units in the last place above 10,
    with the same output. *)
Definition x_above_10_a : float := 0x1.4000000000002p+3%float.
Definition x_above_10_b : float := 0x1.4000000000003p+3%float.

(** The integer challenge levels of the display domain. *)
Definition integer_levels : list Z := map Z.of_nat (seq 10 71).

(** ** Rounding to binary64, in integers

    What [SpecFloat]'s [binary_round_aux] does to a positive mantissa [m] at
    exponent [e], split into its steps: a right shift with round and sticky
    bits ([halve]), the choice of the nearest even ([rne]), and the final
    renormalisation with the tests for zero and overflow ([finish]). *)

(** [k] halvings of a mantissa that starts exact *)
Definition halve (k : nat) (m : Z) : shr_record :=
  Nat.iter k shr_1 (Build_shr_record m false false).

(** rounding to nearest even after a right shift by [n] *)
Definition rne (m n : Z) : Z :=
  let mrs := fst (shr (Build_shr_record m false false) 0 n) in
  round_nearest_even (shr_m mrs) (loc_of_shr_record mrs).

Definition finish (s : bool) (q E : Z) : spec_float :=
  let '(mrs, e) := shr_fexp prec emax q E loc_Exact in
  match shr_m mrs with
  | Z0 => S754_zero s
  | Zpos mf => if (e <=? emax - prec)%Z then S754_finite s mf e else S754_infinity s
  | Zneg _ => S754_nan
  end.

(** the value of the pair [(m, e)] in units of [2^e0] *)
Definition units (e0 : Z) (m : positive) (e : Z) : Z := (Zpos m * 2 ^ (e - e0))%Z.

(** the shift that rounds [k] units of [2^e0] to 53 bits, and the rounded
    number of units *)
Definition nshift (e0 : Z) (k : positive) : Z :=
  (fexp prec emax (Zpos (digits2_pos k) + e0) - e0)%Z.

Definition rv (e0 : Z) (k : positive) : Z :=
  (rne (Zpos k) (nshift e0 k) * 2 ^ nshift e0 k)%Z.

(** the binary64 number nearest to [K] units of [2^e0] *)
Definition RN (e0 : Z) (K : Z) : spec_float :=
  match K with
  | Z0 => S754_zero false
  | Zpos k => binary_round_aux prec emax false (Zpos k) e0 loc_Exact
  | Zneg k => binary_round_aux prec emax true (Zpos k) e0 loc_Exact
  end.

(** the value of a finite binary64 number in units of [2^-1074] *)
Definition ival (x : spec_float) : Z :=
  match x with
  | S754_finite s m e => cond_Zopp s (Zpos m * 2 ^ (e + 1074))%Z
  | _ => 0%Z
  end.

Definition is_finite_SF (x : spec_float) : bool :=
  match x with
  | S754_finite _ _ _ | S754_zero _ => true
  | _ => false
  end.

(** forgetting the sign of zero *)
Definition nz (x : spec_float) : spec_float :=
  match x with
  | S754_zero _ => S754_zero false
  | _ => x
  end.

(** the unit in which the products of a slope [mM * 2^eM] with binary64
    numbers are integers, and the slope in that unit *)
Definition slope_unit (eM : Z) : Z := (Z.min eM 0 - 1074)%Z.

Definition slope_scale (mM : positive) (eM : Z) : Z :=
  (Zpos mM * 2 ^ (eM - Z.min eM 0))%Z.

(** ** Reading binary64 numbers, for the further properties *)

(** An integer that orders the binary64 numbers other than NaN: the value
    in units of [2^-1074], with the infinities beyond every finite one. *)
Definition key (x : spec_float) : Z :=
  match x with
  | S754_infinity false => (2 ^ 2100)%Z
  | S754_infinity true => (- 2 ^ 2100)%Z
  | _ => ival x
  end.

Definition fkey (y : float) : Z := key (Prim2SF y).

Definition is_nan_SF (x : spec_float) : bool :=
  match x with S754_nan => true | _ => false end.

Definition is_zero_SF (x : spec_float) : bool :=
  match x with S754_zero _ => true | _ => false end.

(** neither NaN nor an infinity ([math.isfinite]) *)
Definition b64_finite (y : float) : bool := is_finite_SF (Prim2SF y).

(** ** One pass of the annotation loop (lines 30-33), per point *)

(** the annotation of a point: the text [f"{int(y)}"] at [(x, y)] *)
Definition point_text (p : Z * float) : result Text :=
  n <- py_int (snd p) ;;
  Ok {| text := str n; xy := (float_of_int (fst p), snd p); xytext := (0, 10)%Z |}.

(** the marker of a point: [ax1.plot(x, y, 'ro')] *)
Definition point_marker (p : Z * float) : Line2D :=
  {| xdata := [float_of_int (fst p)]; ydata := [snd p]; fmt := "ro"; label := "" |}.

(** an axes with more annotations and lines, and nothing else changed *)
Definition with_points (ax : Axes) (ts : list Text) (ms : list Line2D) : Axes :=
  {| lines := lines ax ++ ms; texts := texts ax ++ ts;
     xticks := xticks ax; yticks := yticks ax;
     yticklabels := yticklabels ax; ylim := ylim ax; xlabel := xlabel ax;
     ylabel := ylabel ax; title := title ax; legend := legend ax |}.

(** ** The call on Python objects (lines 9-13)

    A scalar argument is a Python [int], of any size, or a [float]; [x] may
    also be a numpy array, a mutable object that lives in a store and is
    passed by reference.  The operators are Python's: an [int] that meets a
    [float] is converted first, which fails beyond the binary64 range, and
    an operator on an array allocates its result. *)

Inductive pynum : Type :=
| PyInt (n : Z)
| PyFloat (f : float).

(** [PyLong_AsDouble]: the binary64 number nearest to an [int], ties to
    even, and [OverflowError] ("int too large to convert to float") when
    that is not a finite number. *)
Definition int_as_double (n : Z) : result float :=
  match binary_normalize prec emax n 0 false with
  | S754_infinity _ => Raise OverflowError
  | _ => Ok (float_of_int n)
  end.

(** an operand of a float operation *)
Definition as_double (v : pynum) : result float :=
  match v with
  | PyInt n => int_as_double n
  | PyFloat f => Ok f
  end.

(** [a - b] *)
Definition py_sub (a b : pynum) : result pynum :=
  match a, b with
  | PyInt x, PyInt y => Ok (PyInt (x - y))
  | _, _ => x <- as_double a ;; y <- as_double b ;; Ok (PyFloat (x - y))
  end.

Definition int_SF (n : Z) : spec_float :=
  match n with
  | Z0 => S754_zero false
  | Zpos p => S754_finite false p 0
  | Zneg p => S754_finite true p 0
  end.

(** [a / b] on two [int]s: the correctly rounded quotient, a [float];
    "integer division result too large for a float" when it is out of
    range. *)
Definition long_true_divide (a b : Z) : result float :=
  if (b =? 0)%Z then Raise ZeroDivisionError
  else match SFdiv prec emax (int_SF a) (int_SF b) with
       | S754_infinity _ => Raise OverflowError
       | q => Ok (SF2Prim q)
       end.

(** [a / b]: always a [float] *)
Definition py_truediv (a b : pynum) : result float :=
  match a, b with
  | PyInt x, PyInt y => long_true_divide x y
  | _, _ => x <- as_double a ;; y <- as_double b ;; truediv x y
  end.

(** [m * v], [v - t] and [v + b] with a [float] on one side *)
Definition float_mul (m : float) (v : pynum) : result float :=
  y <- as_double v ;; Ok (PrimFloat.mul m y).

Definition rsub_float (v : pynum) (t : float) : result float :=
  x <- as_double v ;; Ok (PrimFloat.sub x t).

Definition add_float (v : pynum) (b : float) : result float :=
  x <- as_double v ;; Ok (PrimFloat.add x b).

(** numpy arrays of the two element types the script makes *)
Inductive ndarray : Type :=
| Int64Array (l : list Z)
| Float64Array (l : list float).

(** the elements as they enter an operation with a [float] *)
Definition as_float64 (a : ndarray) : list float :=
  match a with
  | Int64Array l => map float_of_int l
  | Float64Array l => l
  end.

(** The arrays that exist, by identity: a reference is a position.  The
    model never frees an array: the intermediate [m * x] of a call stays in
    the store. *)
Definition store : Type := list ndarray.

Inductive pyobj : Type :=
| Scalar (v : pynum)
| NdArray (r : nat).

(** A computation that may raise and may touch the store. *)
Definition Py (A : Type) : Type := store -> result A * store.

Definition ret {A : Type} (a : A) : Py A := fun h => (Ok a, h).

Definition lift {A : Type} (r : result A) : Py A := fun h => (r, h).

Definition bind_py {A B : Type} (c : Py A) (k : A -> Py B) : Py B :=
  fun h => match c h with
           | (Ok a, h') => k a h'
           | (Raise e, h') => (Raise e, h')
           end.

Notation "x <~ c ;; k" := (bind_py c (fun x => k))
  (at level 61, c at next level, right associativity) : py_scope.

Definition get_array (r : nat) : Py ndarray :=
  fun h => (Ok (nth r h (Float64Array [])), h).

Definition new_array (a : ndarray) : Py nat :=
  fun h => (Ok (List.length h), h ++ [a]).

(** [m * x] with a [float] [m]: on an array, a new [float64] array *)
Definition obj_mul (m : float) (x : pyobj) : Py pyobj :=
  match x with
  | Scalar v => lift (y <- float_mul m v ;; Ok (Scalar (PyFloat y)))
  | NdArray r =>
      a <~ get_array r ;;
      r' <~ new_array (Float64Array (map (fun v => PrimFloat.mul m v) (as_float64 a))) ;;
      ret (NdArray r')
  end.

(** [u + b] with a [float] [b] *)
Definition obj_add (u : pyobj) (b : float) : Py pyobj :=
  match u with
  | Scalar v => lift (y <- add_float v b ;; Ok (Scalar (PyFloat y)))
  | NdArray r =>
      a <~ get_array r ;;
      r' <~ new_array (Float64Array (map (fun v => PrimFloat.add v b) (as_float64 a))) ;;
      ret (NdArray r')
  end.

(** [def cube_lifetime(x, e1, e2, c1, c2)]: [m] and [b] are floats whatever
    the calibration values are, [m] being a quotient. *)
Definition py_cube_lifetime (x : pyobj) (e1 e2 c1 c2 : pynum) : Py pyobj :=
  m <~ lift (d1 <- py_sub e2 e1 ;; d2 <- py_sub c2 c1 ;; py_truediv d1 d2) ;;
  b <~ lift (t <- float_mul m c1 ;; rsub_float e1 t) ;;
  u <~ obj_mul m x ;;
  obj_add u b.

(** [cube_lifetime(x)], with the [int] defaults of the signature *)
Definition py_model (x : pyobj) : Py pyobj :=
  py_cube_lifetime x (PyInt 0) (PyInt 960) (PyInt 10) (PyInt 80).

(** the largest magnitude an [int] may have and still become a [float]:
    [2^1024 - 2^970] is the first that rounds to [2^1024] *)
Definition int_overflow_bound : Z := (2 ^ 1024 - 2 ^ 970)%Z.

(** * Properties *)

Example model_b64_15 : model 15%float = Ok 0x1.1249249249248p+6%float.
Proof. vm_compute. reflexivity. Qed.

Example model_frac_15 : model (Qc_of_int 15) = Ok (Q2Qc (480 # 7)).
Proof. vm_compute. f_equal. apply Qc_is_canon. reflexivity. Qed.

(** ** Facts about the two arithmetics *)

(** The four default literals and their differences are exact in binary64,
    so it does not matter that Python subtracts them as [int]s before the
    division turns them into a [float]. *)
Lemma b64_defaults :
  e1_default (T:=float) = 0%float /\ e2_default (T:=float) = 960%float /\
  c1_default (T:=float) = 10%float /\ c2_default (T:=float) = 80%float.
Proof. repeat split; vm_compute; reflexivity. Qed.

Lemma b64_divisor : sub (c2_default (T:=float)) c1_default = 70%float.
Proof. vm_compute. reflexivity. Qed.

Lemma b64_dividend : sub (e2_default (T:=float)) e1_default = 960%float.
Proof. vm_compute. reflexivity. Qed.

Lemma b64_truediv_default :
  truediv (sub (e2_default (T:=float)) e1_default) (sub c2_default c1_default)
  = Ok (slope (T:=float)).
Proof. vm_compute. reflexivity. Qed.

Lemma b64_model_unfold (x : float) :
  model x = Ok (slope * x + intercept)%float.
Proof.
  unfold model, cube_lifetime. rewrite b64_truediv_default. reflexivity.
Qed.

Lemma b64_model_nd_unfold (x : list float) :
  model_nd x = Ok (map (fun v => slope * v + intercept)%float x).
Proof.
  unfold model_nd, cube_lifetime_nd. rewrite b64_truediv_default.
  cbn [bind]. rewrite map_map. reflexivity.
Qed.

Lemma Qc_of_int_0 : Qc_of_int 0 = 0%Qc.
Proof. apply Qc_is_canon. reflexivity. Qed.

Lemma frac_truediv_ok (x y : Qc) : y <> 0%Qc -> truediv x y = Ok (x / y)%Qc.
Proof.
  intros Hy. unfold truediv. cbn. rewrite Qc_of_int_0.
  destruct (Qc_eq_dec y 0) as [E|E]; [contradiction|reflexivity].
Qed.

Lemma frac_slope : slope (T:=Qc) = Q2Qc (96 # 7).
Proof. apply Qc_is_canon. reflexivity. Qed.

Lemma frac_intercept : intercept (T:=Qc) = Q2Qc (-960 # 7).
Proof. apply Qc_is_canon. reflexivity. Qed.

Lemma frac_model_unfold (x : Qc) :
  model x = Ok (slope * x + intercept)%Qc.
Proof.
  unfold model, cube_lifetime. rewrite frac_truediv_ok; [reflexivity|].
  intro E. discriminate E.
Qed.

Lemma frac_slope_pos : (0 < slope (T:=Qc))%Qc.
Proof. rewrite frac_slope. reflexivity. Qed.


(** ** The values the script computes *)

Lemma y_values_points_eq :
  y_values_points =
  Ok [0; 0x1.1249249249248p+6; 0x1.1249249249249p+7; 0x1.9b6db6db6db6dp+7;
      0x1.1249249249248p+8; 0x1.56db6db6db6dcp+8; 0x1.9b6db6db6db6ep+8;
      480; 0x1.1249249249249p+9]%float.
Proof. vm_compute. reflexivity. Qed.

Lemma y_ticks_epochs_eq :
  y_ticks_epochs =
  Ok [0; 80; 160; 240; 320; 400; 480; 560; 640; 720; 800; 880; 960]%float.
Proof. vm_compute. reflexivity. Qed.

Lemma y_ticks_days_eq :
  y_ticks_days = Ok [0; 5; 10; 15; 20; 25; 30; 35; 40; 45; 50; 55; 60]%float.
Proof. vm_compute. reflexivity. Qed.

(** [arange] off the script's call: a length that is not a number or is
    infinite, a quotient that underflows to either zero, an empty range. *)
Example arange_edge_cases :
  arange 0%float infinity 80%float = Raise ValueError
  /\ arange 0%float nan 80%float = Raise ValueError
  /\ arange 0%float 1%float infinity = Ok [0%float]
  /\ arange 0%float (-1)%float infinity = Ok []
  /\ arange 0%float 0%float 80%float = Ok []
  /\ arange 0%float 0x1p+70%float 1%float = Raise ValueError.
Proof. repeat split; vm_compute; reflexivity. Qed.

(** ** The lifetime model *)

(** C1. With the default calibration points (10,0) and (80,960) the model
    returns [slope * x + intercept] for every input [x], where
    [slope = (960 - 0) / (80 - 10) = 960 / 70] and
    [intercept = 0 - slope * 10]: about 13.714 and -137.14.  This holds in
    binary64, where the slope is the double nearest to 96/7, and in exact
    arithmetic, where slope and intercept are 96/7 and -960/7. *)
Theorem model_is_line :
  (forall x : float, model x = Ok (slope * x + intercept)%float)
  /\ slope (T:=float) = (960 / 70)%float
  /\ intercept (T:=float) = (0 - slope * 10)%float
  /\ (13714 # 1000 < value_Q slope < 13715 # 1000)%Q
  /\ (-13715 # 100 < value_Q intercept < -13714 # 100)%Q
  /\ (Qabs (value_Q slope - (96 # 7)) <= (2 # 1) ^ (-50))%Q
  /\ (forall q : Qc, model q = Ok (slope * q + intercept)%Qc)
  /\ slope (T:=Qc) = Q2Qc (96 # 7)
  /\ intercept (T:=Qc) = Q2Qc (-960 # 7).
Proof.
  split; [exact b64_model_unfold|].
  split; [vm_compute; reflexivity|].
  split; [vm_compute; reflexivity|].
  split; [split; vm_compute; reflexivity|].
  split; [split; vm_compute; reflexivity|].
  split; [vm_compute; discriminate|].
  split; [exact frac_model_unfold|].
  split; [exact frac_slope | exact frac_intercept].
Qed.

(** C2. The model returns the calibration outputs exactly at the two
    default calibration inputs: [model(10) == 0] and [model(80) == 960], in
    binary64 as in exact arithmetic. *)
Theorem model_calibration_points :
  model 10%float = Ok 0%float /\ model 80%float = Ok 960%float
  /\ model (Qc_of_int 10) = Ok (Qc_of_int 0)
  /\ model (Qc_of_int 80) = Ok (Qc_of_int 960).
Proof.
  split; [vm_compute; reflexivity|].
  split; [vm_compute; reflexivity|].
  split; rewrite frac_model_unfold; f_equal; apply Qc_is_canon; reflexivity.
Qed.

(** In binary64 the line through (0,0) and (49,1) misses its second
    calibration point: [1/49*49] is [0.9999999999999999]. *)
Lemma b64_fixed_point_49 :
  cube_lifetime 49%float 0%float 1%float 0%float 49%float
  = Ok 0x1.fffffffffffffp-1%float.
Proof. vm_compute. reflexivity. Qed.

(** C10, as stated, fails on binary64 parameters. *)
Lemma calibration_fixed_points_fail_b64 :
  ~ (forall e1 e2 c1 c2 : float, c1 <> c2 ->
       cube_lifetime c1 e1 e2 c1 c2 = Ok e1 /\
       cube_lifetime c2 e1 e2 c1 c2 = Ok e2).
Proof.
  intros Hall.
  destruct (Hall 0%float 1%float 0%float 49%float) as [_ H2].
  - intros E. apply (f_equal Prim2SF) in E. vm_compute in E. discriminate E.
  - rewrite b64_fixed_point_49 in H2.
    apply (f_equal (fun r => match r with Ok v => Prim2SF v | Raise _ => S754_nan end)) in H2.
    vm_compute in H2. discriminate H2.
Qed.

(** The miss is not always a rounding error of the result.  With
    [e1 = 1] the line through (1e10, 1) and (2e10, 1e30) gives 0.0 at its
    first calibration input, and a quotient that overflows gives NaN. *)
Lemma b64_fixed_point_absorbed :
  cube_lifetime 0x1.2a05f2p+33%float 1%float 0x1.93e5939a08ceap+99%float
                0x1.2a05f2p+33%float 0x1.2a05f2p+34%float
  = Ok 0%float.
Proof. vm_compute. reflexivity. Qed.

Lemma b64_fixed_point_nan :
  exists y,
    cube_lifetime 3%float 0%float 0x1.1ccf385ebc8ap+1023%float
                  3%float 0x1.7ffffffffffffp+1%float = Ok y
    /\ Prim2SF y = S754_nan.
Proof. eexists. split; vm_compute; reflexivity. Qed.

(** C10, amended. In exact arithmetic the calibration points are fixed
    points of the line for every choice of [e1 e2 c1 c2] with [c1 <> c2].
    In binary64 they are for the default parameters, but not for every
    choice, and the miss need not be small:
    [cube_lifetime(49, 0, 1, 0, 49)] is [0.9999999999999999] instead of 1,
    [cube_lifetime(1e10, 1, 1e30, 1e10, 2e10)] is [0.0] instead of 1, and
    [cube_lifetime(3, 0, 1e308, 3, 2.9999999999999996)] is NaN. *)
Theorem calibration_fixed_points_exact (e1 e2 c1 c2 : Qc) :
  c1 <> c2 ->
  cube_lifetime c1 e1 e2 c1 c2 = Ok e1
  /\ cube_lifetime c2 e1 e2 c1 c2 = Ok e2
  /\ model (c1_default (T:=float)) = Ok e1_default
  /\ model (c2_default (T:=float)) = Ok e2_default
  /\ cube_lifetime 49%float 0%float 1%float 0%float 49%float
     = Ok 0x1.fffffffffffffp-1%float
  /\ cube_lifetime 0x1.2a05f2p+33%float 1%float 0x1.93e5939a08ceap+99%float
                   0x1.2a05f2p+33%float 0x1.2a05f2p+34%float
     = Ok 0%float
  /\ (exists y,
        cube_lifetime 3%float 0%float 0x1.1ccf385ebc8ap+1023%float
                      3%float 0x1.7ffffffffffffp+1%float = Ok y
        /\ Prim2SF y = S754_nan).
Proof.
  intros Hc.
  assert (Hd : (c2 - c1)%Qc <> 0%Qc).
  { intros E. apply Hc. symmetry.
    replace c2 with ((c2 - c1) + c1)%Qc by ring. rewrite E. ring. }
  unfold cube_lifetime at 1 2. rewrite (frac_truediv_ok _ _ Hd). cbn [bind].
  split; [f_equal; cbn; ring|].
  split; [f_equal; cbn; field; exact Hd|].
  split; [vm_compute; reflexivity|].
  split; [vm_compute; reflexivity|].
  split; [exact b64_fixed_point_49|].
  split; [exact b64_fixed_point_absorbed | exact b64_fixed_point_nan].
Qed.

Lemma calibration_fixed_points_exact_witness :
  Qc_of_int 3 <> Qc_of_int 10
  /\ cube_lifetime (Qc_of_int 3) (Qc_of_int 1) (Qc_of_int 2) (Qc_of_int 3) (Qc_of_int 10)
     = Ok (Qc_of_int 1)
  /\ cube_lifetime (Qc_of_int 10) (Qc_of_int 1) (Qc_of_int 2) (Qc_of_int 3) (Qc_of_int 10)
     = Ok (Qc_of_int 2).
Proof.
  assert (H : Qc_of_int 3 <> Qc_of_int 10) by (intros E; discriminate E).
  split; [exact H|].
  destruct (calibration_fixed_points_exact (Qc_of_int 1) (Qc_of_int 2)
              (Qc_of_int 3) (Qc_of_int 10) H) as (H1 & H2 & _).
  split; [exact H1 | exact H2].
Defined.

(** ** The chart *)

(** Membership in a literal list. *)
Ltac in_list := cbn [In]; repeat (first [left; reflexivity | right]).

Lemma tick_labels_eq :
  mapM (fun tick => n <- py_int tick ;; Ok (str n ++ "d")%string)
       [0; 5; 10; 15; 20; 25; 30; 35; 40; 45; 50; 55; 60]%float
  = Ok ["0d"; "5d"; "10d"; "15d"; "20d"; "25d"; "30d"; "35d"; "40d"; "45d";
        "50d"; "55d"; "60d"]%string.
Proof. vm_compute. reflexivity. Qed.

(** The primary axes after line 37: the curve, nine annotated markers and
    the epoch ticks; nothing else is set. *)
Lemma primary_axes_spec :
  exists a1 ys ps,
    primary_axes = Ok a1 /\ y_values = Ok ys /\ y_values_points = Ok ps
    /\ nth_error (lines a1) 0
       = Some {| xdata := x_values; ydata := ys; fmt := "";
                 label := "Cube Lifetime (Epochs)" |}
    /\ map text (texts a1)
       = ["0"; "68"; "137"; "205"; "274"; "342"; "411"; "480"; "548"]%string
    /\ map xy (texts a1) = combine (map float_of_int challenge_points) ps
    /\ yticks a1
       = Some [0; 80; 160; 240; 320; 400; 480; 560; 640; 720; 800; 880; 960]%float
    /\ xticks a1 = None /\ ylim a1 = None.
Proof.
  eexists. eexists. eexists.
  split; [vm_compute; reflexivity|].
  split; [vm_compute; reflexivity|].
  split; [vm_compute; reflexivity|].
  repeat split; vm_compute; reflexivity.
Qed.

(** The figure the script ends with, in terms of the primary axes. *)
Lemma chart_spec (get_ylim : Axes -> float * float) (a1 : Axes) :
  primary_axes = Ok a1 ->
  chart get_ylim =
  Ok {| ax1 := set_legend
                 (set_ylabel
                    (set_xlabel (set_xticks a1 additional_x_ticks)
                                "Challenge Level (Bits)")
                    "Cube Lifetime (Epochs)")
                 "upper left";
        ax2 := {| lines := []; texts := []; xticks := None;
                  yticks := Some [0; 5; 10; 15; 20; 25; 30; 35; 40; 45; 50; 55; 60]%float;
                  yticklabels := Some ["0d"; "5d"; "10d"; "15d"; "20d"; "25d"; "30d";
                                       "35d"; "40d"; "45d"; "50d"; "55d"; "60d"]%string;
                  ylim := Some (epochs_to_days (fst (get_ylim a1)),
                                epochs_to_days (snd (get_ylim a1)));
                  xlabel := ""; ylabel := "Cube Lifetime (Days)";
                  title := "Cube Lifetime Function"; legend := None |} |}.
Proof.
  intros Ha. unfold chart. rewrite Ha. cbn [bind].
  unfold secondary_axes. rewrite y_ticks_days_eq. cbn [bind].
  rewrite tick_labels_eq. cbn [bind]. reflexivity.
Qed.

(** C3, as stated, fails at the challenge input 15: the model gives
    68.57..., the annotation reads "68", the nearest integer is 69. *)
Lemma annotation_at_15_is_not_nearest :
  exists a1 y t,
    primary_axes = Ok a1 /\ model 15%float = Ok y
    /\ nth_error (texts a1) 1 = Some t
    /\ xy t = (15%float, y)
    /\ text t = "68"%string
    /\ nearest_int y = Ok 69%Z
    /\ text t <> str 69.
Proof.
  eexists. eexists. eexists.
  split; [vm_compute; reflexivity|].
  split; [vm_compute; reflexivity|].
  split; [vm_compute; reflexivity|].
  split; [vm_compute; reflexivity|].
  split; [vm_compute; reflexivity|].
  split; [vm_compute; reflexivity|].
  vm_compute. discriminate.
Qed.

(** C3, amended. For each of the nine challenge inputs
    [10,15,...,50] the annotation placed at [(x, model(x))] is the decimal
    text of [int(model(x))], the integer part of [model(x)] (truncation,
    not rounding to nearest): 0, 68, 137, 205, 274, 342, 411, 480, 548; and
    the model outputs over these inputs are strictly increasing. *)
Theorem annotations_are_integer_parts :
  exists a1 ps,
    primary_axes = Ok a1
    /\ y_values_points = Ok ps
    /\ mapM model (map float_of_int challenge_points) = Ok ps
    /\ mapM py_int ps = Ok marker_ints
    /\ map text (texts a1) = map str marker_ints
    /\ map xy (texts a1) = combine (map float_of_int challenge_points) ps
    /\ forallb (fun ny => PrimFloat.leb (float_of_int (fst ny)) (snd ny)
                          && PrimFloat.ltb (snd ny) (float_of_int (fst ny + 1)))
               (combine marker_ints ps) = true
    /\ increasing ps = true.
Proof.
  eexists. eexists.
  split; [vm_compute; reflexivity|].
  split; [vm_compute; reflexivity|].
  repeat split; vm_compute; reflexivity.
Qed.

(** C5. The ticks of the primary axis are the arithmetic sequence
    0, 80, 160, ..., 960: [ax1.set_yticks] puts the array of line 36 on the
    axis, where it still is in the finished figure; it starts at 0, goes up
    in steps of 80, and its last element is at least the maximum of the
    dense curve (which is 960). *)
Theorem y_ticks_epochs_spec (get_ylim : Axes -> float * float) :
  exists ticks ys top a1 fig,
    y_ticks_epochs = Ok ticks /\ y_values = Ok ys /\ py_max ys = Ok top
    /\ primary_axes = Ok a1 /\ yticks a1 = Some ticks
    /\ chart get_ylim = Ok fig /\ yticks (ax1 fig) = Some ticks
    /\ ticks = map (fun k => float_of_int (epoch_increments * Z.of_nat k)) (seq 0 13)
    /\ hd_error ticks = Some 0%float
    /\ map (fun p => PrimFloat.sub (snd p) (fst p)) (combine ticks (tl ticks))
       = repeat 80%float 12
    /\ PrimFloat.leb top (last ticks 0%float) = true
    /\ forallb (fun y => PrimFloat.leb y (last ticks 0%float)) ys = true.
Proof.
  destruct primary_axes_spec
    as (a1 & ys & ps & Ha & Hys & Hps & Hline & Htexts & Hxy & Hticks & _).
  exists [0; 80; 160; 240; 320; 400; 480; 560; 640; 720; 800; 880; 960]%float.
  exists ys. eexists. exists a1. eexists.
  split; [exact y_ticks_epochs_eq|].
  split; [exact Hys|].
  assert (Hmax : match y_values with
                 | Ok l => py_max l
                 | Raise e => Raise e
                 end = Ok 960%float) by (vm_compute; reflexivity).
  rewrite Hys in Hmax.
  split; [exact Hmax|].
  split; [exact Ha|].
  split; [exact Hticks|].
  split; [apply (chart_spec get_ylim a1 Ha)|].
  cbn [ax1 yticks set_legend set_ylabel set_xlabel set_xticks].
  split; [exact Hticks|].
  split; [vm_compute; reflexivity|].
  split; [reflexivity|].
  split; [vm_compute; reflexivity|].
  split; [vm_compute; reflexivity|].
  assert (E : match y_values with
              | Ok l => forallb (fun y => PrimFloat.leb y 960%float) l
              | Raise _ => false
              end = true) by (vm_compute; reflexivity).
  rewrite Hys in E. exact E.
Qed.

(** C8. The input-axis ticks are the literal list
    [10, 15, ..., 80], whatever the data or the displayed limits, and each
    of the nine challenge inputs is in it. *)
Theorem x_ticks_cover_challenge_points (get_ylim : Axes -> float * float) :
  (exists fig, chart get_ylim = Ok fig
               /\ xticks (ax1 fig) = Some additional_x_ticks)
  /\ additional_x_ticks
     = [10; 15; 20; 25; 30; 35; 40; 45; 50; 55; 60; 65; 70; 75; 80]%Z
  /\ Forall (fun c => In c additional_x_ticks) challenge_points.
Proof.
  split.
  { destruct primary_axes_spec as (a1 & ys & ps & Ha & _).
    eexists. split; [apply (chart_spec get_ylim a1 Ha)|]. reflexivity. }
  split; [reflexivity|].
  unfold challenge_points, additional_x_ticks.
  repeat (apply Forall_cons; [in_list|]). apply Forall_nil.
Qed.

(** ** The secondary axis *)

Lemma b64_epochs_to_days (v : float) : epochs_to_days v = (v / 16)%float.
Proof.
  unfold epochs_to_days.
  replace (of_int epochs_per_day) with 16%float by (vm_compute; reflexivity).
  reflexivity.
Qed.

Lemma frac_sixteen_nonzero : Qc_of_int epochs_per_day <> 0%Qc.
Proof. intros E. apply (f_equal this) in E. vm_compute in E. discriminate E. Qed.

(** In exact arithmetic a value and its conversion sit at the same height
    when the limits are converted too. *)
Lemma frac_axis_alignment (lo hi t : Qc) :
  lo <> hi ->
  axis_fraction (epochs_to_days lo, epochs_to_days hi) (epochs_to_days t)
  = axis_fraction (lo, hi) t.
Proof.
  intros Hne. unfold axis_fraction, epochs_to_days. cbn.
  assert (Hd : (hi - lo)%Qc <> 0%Qc).
  { intros E. apply Hne. symmetry.
    replace hi with ((hi - lo) + lo)%Qc by ring. rewrite E. ring. }
  pose proof frac_sixteen_nonzero as H16.
  field. split; [exact Hd | exact H16].
Qed.

(** With limits such as (-48, 1008), the margins of 5% that matplotlib puts
    by default around data from 0 to 960, every epoch tick and its day tick
    sit at the same height in binary64 too. *)
Example b64_axis_alignment_default :
  forallb (fun t => PrimFloat.eqb
                      (axis_fraction (epochs_to_days (-48)%float,
                                      epochs_to_days 1008%float)
                                     (epochs_to_days t))
                      (axis_fraction ((-48)%float, 1008%float) t))
          [0; 80; 160; 240; 320; 400; 480; 560; 640; 720; 800; 880; 960]%float
  = true.
Proof. vm_compute. reflexivity. Qed.

(** C4. The days value of a model output is that output divided by the
    fixed ratio 16, and the conversion only builds the labels, ticks and
    limits of the secondary axis: the curve, the markers and the epoch ticks
    of the primary axis are what they were before it, and the secondary axis
    carries no data.  Dividing by 16 loses nothing: it is undone by
    multiplying by 16, in exact arithmetic for every value and in binary64 for
    every value the script plots. *)
Theorem days_are_epochs_over_16 (get_ylim : Axes -> float * float) :
  epochs_per_day = 16%Z
  /\ (forall x : float,
        exists y, model x = Ok y /\ epochs_to_days y = (y / 16)%float)
  /\ (forall q : Qc, (epochs_to_days q * Qc_of_int 16)%Qc = q)
  /\ exists fig a1 ys ticks,
       chart get_ylim = Ok fig /\ primary_axes = Ok a1
       /\ y_values = Ok ys /\ y_ticks_epochs = Ok ticks
       /\ yticks (ax2 fig) = Some (map (fun t => (t / 16)%float) ticks)
       /\ yticklabels (ax2 fig)
          = Some ["0d"; "5d"; "10d"; "15d"; "20d"; "25d"; "30d"; "35d"; "40d";
                  "45d"; "50d"; "55d"; "60d"]%string
       /\ lines (ax2 fig) = [] /\ texts (ax2 fig) = []
       /\ lines (ax1 fig) = lines a1 /\ texts (ax1 fig) = texts a1
       /\ yticks (ax1 fig) = Some ticks
       /\ nth_error (lines (ax1 fig)) 0
          = Some {| xdata := x_values; ydata := ys; fmt := "";
                    label := "Cube Lifetime (Epochs)" |}
       /\ forallb (fun y => PrimFloat.eqb (epochs_to_days y * 16)%float y) ys = true.
Proof.
  split; [reflexivity|].
  split.
  { intros x. eexists. split; [apply b64_model_unfold|apply b64_epochs_to_days]. }
  split.
  { intros q. unfold epochs_to_days. cbn.
    pose proof frac_sixteen_nonzero as H16.
    change (Qc_of_int 16) with (Qc_of_int epochs_per_day).
    field. exact H16. }
  destruct primary_axes_spec
    as (a1 & ys & ps & Ha & Hys & Hps & Hline & Htexts & Hxy & Hticks & _).
  eexists. exists a1, ys.
  exists [0; 80; 160; 240; 320; 400; 480; 560; 640; 720; 800; 880; 960]%float.
  split; [apply (chart_spec get_ylim a1 Ha)|]. split; [exact Ha|]. split; [exact Hys|].
  split; [exact y_ticks_epochs_eq|].
  cbn [ax1 ax2 yticks yticklabels lines texts set_legend set_ylabel set_xlabel set_xticks].
  split; [vm_compute; reflexivity|].
  split; [reflexivity|]. split; [reflexivity|]. split; [reflexivity|].
  split; [reflexivity|]. split; [reflexivity|].
  split; [exact Hticks|]. split; [exact Hline|].
  clear - Hys. unfold y_values in Hys.
  assert (E : match model_nd x_values with
              | Ok l => forallb (fun y => PrimFloat.eqb (epochs_to_days y * 16)%float y) l
              | Raise _ => false
              end = true) by (vm_compute; reflexivity).
  rewrite Hys in E. exact E.
Qed.

(** C6. The visible range of the days axis is the displayed range of the
    epochs axis with both ends divided by 16: it is computed from what
    [ax1.get_ylim()] returns, not from the data.  The day ticks are the epoch
    ticks divided by 16, so the epoch tick 960 goes with the day tick 60, and
    with limits and ticks scaled alike each pair of ticks sits at the same
    height. *)
Theorem secondary_limits_scaled (get_ylim : Axes -> float * float) :
  exists a1 fig ticks,
    primary_axes = Ok a1 /\ chart get_ylim = Ok fig
    /\ ylim (ax2 fig)
       = Some ((fst (get_ylim a1) / 16)%float, (snd (get_ylim a1) / 16)%float)
    /\ yticks (ax1 fig) = Some ticks
    /\ yticks (ax2 fig) = Some (map (fun t => (t / 16)%float) ticks)
    /\ last ticks 0%float = 960%float
    /\ last (map (fun t => (t / 16)%float) ticks) 0%float = 60%float
    /\ In (960%float, 60%float) (combine ticks (map (fun t => (t / 16)%float) ticks))
    /\ (forall lo hi t : Qc,
          lo <> hi ->
          axis_fraction (epochs_to_days lo, epochs_to_days hi) (epochs_to_days t)
          = axis_fraction (lo, hi) t).
Proof.
  destruct primary_axes_spec
    as (a1 & ys & ps & Ha & Hys & Hps & Hline & Htexts & Hxy & Hticks & _).
  exists a1. eexists.
  exists [0; 80; 160; 240; 320; 400; 480; 560; 640; 720; 800; 880; 960]%float.
  split; [exact Ha|].
  split; [apply (chart_spec get_ylim a1 Ha)|].
  cbn [ax1 ax2 yticks ylim set_legend set_ylabel set_xlabel set_xticks].
  split; [rewrite !b64_epochs_to_days; reflexivity|].
  split; [exact Hticks|].
  split; [vm_compute; reflexivity|].
  split; [vm_compute; reflexivity|].
  split; [vm_compute; reflexivity|].
  split; [vm_compute; in_list|].
  exact frac_axis_alignment.
Qed.

(** ** Rounding is monotone

    The lemmas below follow [SpecFloat]'s definitions of multiplication and
    addition down to integers and show that [x |-> m * x + b] never decreases
    in binary64 when [m] is a positive normal number and [b] is finite. *)

Section B64Rounding.
Local Open Scope Z_scope.

(** digits *)
Lemma digits2_pos_size (p : positive) : digits2_pos p = Pos.size p.
Proof. induction p; cbn; congruence. Qed.

Lemma digits2_bounds (p : positive) :
  2 ^ (Zpos (digits2_pos p) - 1) <= Zpos p < 2 ^ Zpos (digits2_pos p).
Proof.
  rewrite digits2_pos_size.
  pose proof (Z.log2_spec (Zpos p) eq_refl) as H.
  assert (E : Zpos (Pos.size p) = Z.succ (Z.log2 (Zpos p))).
  { destruct p; cbn; lia. }
  rewrite E. replace (Z.succ (Z.log2 (Zpos p)) - 1) with (Z.log2 (Zpos p)) by lia.
  exact H.
Qed.

Lemma digits2_unique (p : positive) (d : Z) :
  2 ^ (d - 1) <= Zpos p < 2 ^ d -> Zpos (digits2_pos p) = d.
Proof.
  intros [Hlo Hhi].
  pose proof (digits2_bounds p) as [Hlo' Hhi'].
  assert (Hd : 0 < d).
  { destruct (Z.ltb_spec 0 d) as [|Hle]; [assumption|].
    exfalso. assert (2 ^ d <= 1).
    { destruct (Z.eq_dec d 0) as [->|]; [cbn; lia|].
      rewrite Z.pow_neg_r by lia. lia. }
    lia. }
  set (d' := Zpos (digits2_pos p)) in *.
  assert (Hd' : 0 < d') by (unfold d'; lia).
  destruct (Z.lt_trichotomy d' d) as [Hlt|[Heq|Hgt]]; [|exact Heq|]; exfalso.
  - assert (2 ^ d' <= 2 ^ (d - 1)) by (apply Z.pow_le_mono_r; lia). lia.
  - assert (2 ^ d <= 2 ^ (d' - 1)) by (apply Z.pow_le_mono_r; lia). lia.
Qed.

(** shr_1 on non-negative mantissas *)
Lemma shr_1_nonneg (m : Z) (r s : bool) :
  0 <= m ->
  shr_1 (Build_shr_record m r s) = Build_shr_record (Z.div2 m) (Z.odd m) (r || s).
Proof.
  intros Hm. destruct m as [|p|p]; [reflexivity| |lia].
  destruct p; reflexivity.
Qed.

Lemma iter_pos_nat {A} (f : A -> A) (p : positive) (x : A) :
  SpecFloat.iter_pos f p x = Nat.iter (Pos.to_nat p) f x.
Proof.
  revert x. induction p as [p IH|p IH|]; intros x; cbn [SpecFloat.iter_pos].
  - rewrite !IH, Pos2Nat.inj_xI.
    replace (S (2 * Pos.to_nat p))%nat with (Pos.to_nat p + (Pos.to_nat p + 1))%nat by lia.
    rewrite !Nat.iter_add. reflexivity.
  - rewrite !IH, Pos2Nat.inj_xO.
    replace (2 * Pos.to_nat p)%nat with (Pos.to_nat p + Pos.to_nat p)%nat by lia.
    rewrite Nat.iter_add. reflexivity.
  - reflexivity.
Qed.


Lemma halve_invariant (k : nat) (m : Z) :
  0 <= m ->
  let mrs := halve (S k) m in
  exists t,
    0 <= shr_m mrs
    /\ m = shr_m mrs * 2 ^ Z.of_nat (S k)
          + Z.b2z (shr_r mrs) * 2 ^ Z.of_nat k + t
    /\ 0 <= t < 2 ^ Z.of_nat k
    /\ shr_s mrs = negb (t =? 0).
Proof.
  intros Hm. induction k as [|k IH].
  - cbn zeta. unfold halve. cbn [Nat.iter]. rewrite shr_1_nonneg by exact Hm.
    cbn [shr_m shr_r shr_s].
    exists 0. rewrite Z.div2_div. 
    pose proof (Zdiv2_odd_eqn m) as E. rewrite Z.div2_div in E.
    change (2 ^ Z.of_nat 1) with 2. change (2 ^ Z.of_nat 0) with 1.
    destruct (Z.odd m); cbn [Z.b2z] in *; repeat split; try lia.
    all: apply Z.div_pos; lia.
  - cbn zeta in IH. destruct IH as (t & Hq & Hdec & Ht & Hs).
    cbn zeta. unfold halve in *. rewrite Nat.iter_succ.
    destruct (Nat.iter (S k) shr_1 _) as [q r s]. cbn [shr_m shr_r shr_s] in *.
    rewrite shr_1_nonneg by exact Hq. cbn [shr_m shr_r shr_s].
    exists (Z.b2z r * 2 ^ Z.of_nat k + t).
    pose proof (Zdiv2_odd_eqn q) as E. rewrite Z.div2_div in *.
    assert (P : 2 ^ Z.of_nat (S k) = 2 * 2 ^ Z.of_nat k).
    { rewrite Nat2Z.inj_succ, Z.pow_succ_r by lia. reflexivity. }
    assert (P' : 2 ^ Z.of_nat (S (S k)) = 2 * 2 ^ Z.of_nat (S k)).
    { rewrite (Nat2Z.inj_succ (S k)), Z.pow_succ_r by lia. reflexivity. }
    assert (Hpos : 0 < 2 ^ Z.of_nat k) by (apply Z.pow_pos_nonneg; lia).
    split; [apply Z.div_pos; lia|].
    split.
    { rewrite P', P. rewrite P in Hdec.
      destruct (Z.odd q); cbn [Z.b2z] in *; nia. }
    split.
    { rewrite P. destruct r; cbn [Z.b2z]; lia. }
    rewrite Hs. destruct r; cbn [Z.b2z orb].
    + symmetry. apply negb_true_iff. apply Z.eqb_neq. lia.
    + rewrite Z.mul_0_l, Z.add_0_l. reflexivity.
Qed.

Lemma halve_exact (j : nat) (m : Z) :
  0 <= m -> halve j (m * 2 ^ Z.of_nat j) = Build_shr_record m false false.
Proof.
  revert m. induction j as [|j IH]; intros m Hm.
  - cbn. f_equal. lia.
  - unfold halve. rewrite Nat.iter_succ_r.
    assert (P : 2 ^ Z.of_nat (S j) = 2 * 2 ^ Z.of_nat j).
    { rewrite Nat2Z.inj_succ, Z.pow_succ_r by lia. reflexivity. }
    assert (Hpos : 0 < 2 ^ Z.of_nat j) by (apply Z.pow_pos_nonneg; lia).
    rewrite shr_1_nonneg by nia.
    replace (Z.div2 (m * 2 ^ Z.of_nat (S j))) with (m * 2 ^ Z.of_nat j).
    2:{ rewrite Z.div2_div, P. replace (m * (2 * 2 ^ Z.of_nat j)) with (m * 2 ^ Z.of_nat j * 2) by ring.
        rewrite Z.div_mul by lia. reflexivity. }
    replace (Z.odd (m * 2 ^ Z.of_nat (S j))) with false.
    2:{ rewrite P. replace (m * (2 * 2 ^ Z.of_nat j)) with (2 * (m * 2 ^ Z.of_nat j)) by ring.
        rewrite Z.odd_mul. reflexivity. }
    apply IH. exact Hm.
Qed.

Lemma halve_scaled (k j : nat) (m : Z) :
  0 <= m -> halve (k + j) (m * 2 ^ Z.of_nat j) = halve k m.
Proof.
  intros Hm. unfold halve. rewrite Nat.iter_add.
  fold (halve j (m * 2 ^ Z.of_nat j)). rewrite halve_exact by exact Hm. reflexivity.
Qed.


Lemma shr_halve (m e n : Z) :
  0 <= n ->
  shr (Build_shr_record m false false) e n = (halve (Z.to_nat n) m, e + n).
Proof.
  intros Hn. unfold shr. destruct n as [|p|p]; [| |lia].
  - cbn. f_equal. lia.
  - rewrite iter_pos_nat. reflexivity.
Qed.

Lemma rne_halve (m n : Z) :
  0 <= n ->
  rne m n = let mrs := halve (Z.to_nat n) m in
            round_nearest_even (shr_m mrs) (loc_of_shr_record mrs).
Proof. intros Hn. unfold rne. rewrite shr_halve by exact Hn. reflexivity. Qed.

Lemma rne_0 (m : Z) : rne m 0 = m.
Proof. reflexivity. Qed.

Lemma rne_nearest (m n : Z) :
  0 <= m -> 0 <= n ->
  0 <= rne m n
  /\ 2 * m - 2 ^ n <= 2 * (rne m n * 2 ^ n) <= 2 * m + 2 ^ n.
Proof.
  intros Hm Hn. rewrite rne_halve by exact Hn. cbn zeta.
  destruct (Z.to_nat n) as [|k] eqn:Ek.
  - assert (n = 0) by lia. subst n. unfold halve. cbv [Nat.iter nat_rect shr_m loc_of_shr_record round_nearest_even]. rewrite Z.pow_0_r. lia.
  - assert (En : n = Z.of_nat (S k)) by lia.
    destruct (halve_invariant k m Hm) as (t & Hq & Hdec & Ht & Hs).
    destruct (halve (S k) m) as [q r s]. cbn [shr_m shr_r shr_s] in *.
    rewrite En.
    assert (P : 2 ^ Z.of_nat (S k) = 2 * 2 ^ Z.of_nat k).
    { rewrite Nat2Z.inj_succ, Z.pow_succ_r by lia. reflexivity. }
    rewrite P in *. set (h := 2 ^ Z.of_nat k) in *.
    assert (Hh : 0 < h) by (apply Z.pow_pos_nonneg; lia).
    destruct r, s; cbn [loc_of_shr_record round_nearest_even Z.b2z] in *.
    + split; [lia|]. nia.
    + symmetry in Hs. apply negb_false_iff, Z.eqb_eq in Hs. subst t.
      destruct (Z.even q); split; try lia; nia.
    + split; [lia|]. nia.
    + split; [lia|]. nia.
Qed.

Lemma rne_exact (m n : Z) : 0 <= m -> 0 <= n -> rne (m * 2 ^ n) n = m.
Proof.
  intros Hm Hn. rewrite rne_halve by exact Hn. cbn zeta.
  replace (2 ^ n) with (2 ^ Z.of_nat (Z.to_nat n)) by (rewrite Z2Nat.id; auto).
  rewrite halve_exact by exact Hm. reflexivity.
Qed.

Lemma rne_scaled (m n j : Z) :
  0 <= m -> 0 <= n -> 0 <= j -> rne (m * 2 ^ j) (n + j) = rne m n.
Proof.
  intros Hm Hn Hj. rewrite !rne_halve by lia. cbn zeta.
  rewrite Z2Nat.inj_add by lia.
  replace (2 ^ j) with (2 ^ Z.of_nat (Z.to_nat j)) by (rewrite Z2Nat.id; auto).
  rewrite halve_scaled by exact Hm. reflexivity.
Qed.

Lemma rne_mono (m1 m2 n : Z) :
  0 <= m1 -> m1 <= m2 -> 0 <= n -> rne m1 n <= rne m2 n.
Proof.
  intros H1 H12 Hn.
  destruct (rne_nearest m1 n H1 Hn) as [_ [_ Hup]].
  destruct (rne_nearest m2 n ltac:(lia) Hn) as [_ [Hlo _]].
  destruct (Z.eq_dec m1 m2) as [->|Hne]; [lia|].
  assert (Hp : 0 < 2 ^ n) by (apply Z.pow_pos_nonneg; lia).
  destruct (Z.le_gt_cases (rne m1 n) (rne m2 n)) as [|Hgt]; [assumption|].
  exfalso. assert ((rne m2 n + 1) * 2 ^ n <= rne m1 n * 2 ^ n).
  { apply Z.mul_le_mono_nonneg_r; lia. }
  nia.
Qed.

(** binary64 parameters *)
Lemma fexp_eq (x : Z) : fexp prec emax x = Z.max (x - 53) (-1074).
Proof. reflexivity. Qed.

Lemma pow2_pos (a : Z) : 0 <= a -> 0 < 2 ^ a.
Proof. intros. apply Z.pow_pos_nonneg; lia. Qed.

Lemma pow2_split (a b : Z) : 0 <= a -> a <= b -> 2 ^ b = 2 ^ (b - a) * 2 ^ a.
Proof. intros Ha Hab. rewrite <- Z.pow_add_r by lia. f_equal. lia. Qed.

Lemma pow2_le (a b : Z) : 0 <= a -> a <= b -> 2 ^ a <= 2 ^ b.
Proof. intros. apply Z.pow_le_mono_r; lia. Qed.

Lemma pow2_lt (a b : Z) : 0 <= a -> a < b -> 2 ^ a < 2 ^ b.
Proof. intros. apply Z.pow_lt_mono_r; lia. Qed.


Lemma bra_rne (s : bool) (m : positive) (e : Z) :
  e <= fexp prec emax (Zpos (digits2_pos m) + e) ->
  binary_round_aux prec emax s (Zpos m) e loc_Exact
  = finish s (rne (Zpos m) (fexp prec emax (Zpos (digits2_pos m) + e) - e))
           (fexp prec emax (Zpos (digits2_pos m) + e)).
Proof.
  intros Hn. set (E := fexp prec emax (Zpos (digits2_pos m) + e)) in *.
  unfold binary_round_aux. unfold shr_fexp at 1.
  cbn [Zdigits2 shr_record_of_loc]. fold E.
  rewrite shr_halve by lia.
  rewrite rne_halve by lia. cbn zeta.
  replace (e + (E - e)) with E by lia.
  unfold finish. reflexivity.
Qed.

Lemma finish_zero (s : bool) (E : Z) : -1074 <= E -> finish s 0 E = S754_zero s.
Proof.
  intros HE. unfold finish, shr_fexp. cbn [Zdigits2 shr_record_of_loc].
  rewrite fexp_eq. unfold shr.
  destruct (Z.max (0 + E - 53) (-1074) - E) eqn:En; try reflexivity. lia.
Qed.

Lemma finish_spec (s : bool) (q E : Z) :
  -1074 <= E -> 0 < q <= 2 ^ 53 -> (-1074 < E -> 2 ^ 52 <= q) ->
  exists mf ef,
    canonical_mantissa prec emax mf ef = true
    /\ Zpos mf * 2 ^ (ef - E) = q /\ E <= ef
    /\ finish s q E = if ef <=? 971 then S754_finite s mf ef else S754_infinity s.
Proof.
  intros HE [Hq0 Hq] Hnorm.
  destruct q as [|p|p]; try lia.
  pose proof (digits2_bounds p) as [Hlo Hhi].
  set (d := Zpos (digits2_pos p)) in *.
  assert (Hd : 0 < d) by (unfold d; lia).
  destruct (Z.eq_dec (Zpos p) (2 ^ 53)) as [Etop|Hlt].
  - (* the mantissa rounded up to 2^53 *)
    assert (Ed : d = 54) by (apply digits2_unique; rewrite Etop; cbn; lia).
    exists (4503599627370496%positive), (E + 1).
    split.
    { unfold canonical_mantissa. rewrite fexp_eq. apply Z.eqb_eq.
      change (Zpos (digits2_pos 4503599627370496)) with 53. lia. }
    split; [replace (E + 1 - E) with 1 by lia; rewrite Etop; reflexivity|].
    split; [lia|].
    unfold finish, shr_fexp. cbn [Zdigits2 shr_record_of_loc]. fold d.
    rewrite fexp_eq, Ed.
    replace (Z.max (54 + E - 53) (-1074) - E) with 1 by lia.
    rewrite Etop. cbn [shr SpecFloat.iter_pos].
    change (shr_1 {| shr_m := 2 ^ 53; shr_r := false; shr_s := false |})
      with {| shr_m := 4503599627370496; shr_r := false; shr_s := false |}.
    cbn [shr_m]. reflexivity.
  - assert (Hd53 : d <= 53).
    { destruct (Z.le_gt_cases d 53) as [|Hgt]; [assumption|exfalso].
      assert (2 ^ 53 <= 2 ^ (d - 1)) by (apply pow2_le; lia). lia. }
    exists p, E.
    split.
    { unfold canonical_mantissa. rewrite fexp_eq. fold d. apply Z.eqb_eq.
      destruct (Z.eq_dec E (-1074)) as [->|HneE]; [lia|].
      assert (H52 : 2 ^ 52 <= Zpos p) by (apply Hnorm; lia).
      assert (d = 53).
      { destruct (Z.le_gt_cases 53 d) as [|Hlt']; [lia|exfalso].
        assert (2 ^ d <= 2 ^ 52) by (apply pow2_le; lia). lia. }
      lia. }
    split; [replace (E - E) with 0 by lia; cbn; lia|].
    split; [lia|].
    unfold finish, shr_fexp. cbn [Zdigits2 shr_record_of_loc]. fold d.
    rewrite fexp_eq. unfold shr.
    destruct (Z.max (d + E - 53) (-1074) - E) eqn:En; try lia; reflexivity.
Qed.

Lemma canonical_inv (m : positive) (e : Z) :
  canonical_mantissa prec emax m e = true ->
  -1074 <= e /\ Zpos (digits2_pos m) <= 53
  /\ (-1074 < e -> Zpos (digits2_pos m) = 53).
Proof.
  unfold canonical_mantissa. rewrite fexp_eq. intros H. apply Z.eqb_eq in H. lia.
Qed.

Lemma canonical_bounds (m : positive) (e : Z) :
  canonical_mantissa prec emax m e = true ->
  -1074 <= e /\ Zpos m < 2 ^ 53 /\ (-1074 < e -> 2 ^ 52 <= Zpos m).
Proof.
  intros H. destruct (canonical_inv m e H) as (He & Hd & Hn).
  pose proof (digits2_bounds m) as [Hlo Hhi].
  split; [exact He|]. split.
  - assert (2 ^ Zpos (digits2_pos m) <= 2 ^ 53) by (apply pow2_le; lia). lia.
  - intros Hlt. rewrite (Hn Hlt) in Hlo. exact Hlo.
Qed.

Section FixedUnit.
Variable e0 : Z.
Hypothesis He0 : e0 <= -1074.


Lemma canonical_lex (m1 m2 : positive) (e1 e2 : Z) :
  canonical_mantissa prec emax m1 e1 = true ->
  canonical_mantissa prec emax m2 e2 = true ->
  units e0 m1 e1 <= units e0 m2 e2 ->
  e1 < e2 \/ (e1 = e2 /\ (m1 <= m2)%positive).
Proof.
  intros C1 C2 Hv. unfold units in Hv.
  destruct (canonical_bounds m1 e1 C1) as (He1 & Hm1 & Hn1).
  destruct (canonical_bounds m2 e2 C2) as (He2 & Hm2 & Hn2).
  destruct (Z.lt_trichotomy e1 e2) as [Hlt|[Heq|Hgt]]; [left; exact Hlt| |exfalso].
  - right. split; [exact Heq|]. subst e2.
    assert (Hp : 0 < 2 ^ (e1 - e0)) by (apply pow2_pos; lia).
    apply Z.mul_le_mono_pos_r in Hv; [exact Hv|exact Hp].
  - assert (H52 : 2 ^ 52 <= Zpos m1) by (apply Hn1; lia).
    assert (Hp2 : 0 < 2 ^ (e2 - e0)) by (apply pow2_pos; lia).
    assert (Es : 2 ^ (e1 - e0) = 2 ^ (e1 - e2) * 2 ^ (e2 - e0)).
    { rewrite <- Z.pow_add_r by lia. f_equal. lia. }
    assert (H2 : 2 <= 2 ^ (e1 - e2)).
    { change 2 with (2 ^ 1) at 1. apply pow2_le; lia. }
    rewrite Es in Hv.
    assert (2 ^ 53 * 2 ^ (e2 - e0) <= Zpos m1 * (2 ^ (e1 - e2) * 2 ^ (e2 - e0))).
    { change (2 ^ 53) with (2 ^ 52 * 2). 
      rewrite Z.mul_assoc. apply Z.mul_le_mono_nonneg_r; [lia|].
      apply Z.mul_le_mono_nonneg; lia. }
    assert (Zpos m2 * 2 ^ (e2 - e0) < 2 ^ 53 * 2 ^ (e2 - e0)).
    { apply Z.mul_lt_mono_pos_r; lia. }
    lia.
Qed.

Lemma lex_units (m1 m2 : positive) (e1 e2 : Z) :
  canonical_mantissa prec emax m1 e1 = true ->
  canonical_mantissa prec emax m2 e2 = true ->
  e1 < e2 \/ (e1 = e2 /\ (m1 <= m2)%positive) ->
  units e0 m1 e1 <= units e0 m2 e2.
Proof.
  intros C1 C2 Hlex. unfold units.
  destruct (canonical_bounds m1 e1 C1) as (He1 & Hm1 & Hn1).
  destruct (canonical_bounds m2 e2 C2) as (He2 & Hm2 & Hn2).
  destruct Hlex as [Hlt|[-> Hm]].
  - assert (H52 : 2 ^ 52 <= Zpos m2) by (apply Hn2; lia).
    assert (Hp1 : 0 < 2 ^ (e1 - e0)) by (apply pow2_pos; lia).
    assert (Es : 2 ^ (e2 - e0) = 2 ^ (e2 - e1) * 2 ^ (e1 - e0)).
    { rewrite <- Z.pow_add_r by lia. f_equal. lia. }
    assert (H2 : 2 <= 2 ^ (e2 - e1)).
    { change 2 with (2 ^ 1) at 1. apply pow2_le; lia. }
    rewrite Es.
    assert (2 ^ 53 * 2 ^ (e1 - e0) <= Zpos m2 * (2 ^ (e2 - e1) * 2 ^ (e1 - e0))).
    { change (2 ^ 53) with (2 ^ 52 * 2). 
      rewrite Z.mul_assoc. apply Z.mul_le_mono_nonneg_r; [lia|].
      apply Z.mul_le_mono_nonneg; lia. }
    assert (Zpos m1 * 2 ^ (e1 - e0) < 2 ^ 53 * 2 ^ (e1 - e0)).
    { apply Z.mul_lt_mono_pos_r; lia. }
    lia.
  - apply Z.mul_le_mono_nonneg_r; [|exact Hm].
    apply Z.lt_le_incl, pow2_pos. lia.
Qed.


Lemma nshift_eq (k : positive) :
  nshift e0 k = Z.max (Zpos (digits2_pos k) - 53) (-1074 - e0).
Proof. unfold nshift. rewrite fexp_eq. lia. Qed.

Lemma nshift_nonneg (k : positive) : 0 <= nshift e0 k.
Proof. rewrite nshift_eq. lia. Qed.

Lemma digits2_mono (k1 k2 : positive) :
  (k1 <= k2)%positive -> Zpos (digits2_pos k1) <= Zpos (digits2_pos k2).
Proof.
  intros H.
  pose proof (digits2_bounds k1) as [Hlo1 _].
  pose proof (digits2_bounds k2) as [_ Hhi2].
  destruct (Z.le_gt_cases (Zpos (digits2_pos k1)) (Zpos (digits2_pos k2))) as [|Hgt];
    [assumption|exfalso].
  assert (2 ^ Zpos (digits2_pos k2) <= 2 ^ (Zpos (digits2_pos k1) - 1))
    by (apply pow2_le; lia).
  lia.
Qed.

Lemma rv_mono (k1 k2 : positive) : (k1 <= k2)%positive -> rv e0 k1 <= rv e0 k2.
Proof.
  intros H. unfold rv.
  pose proof (digits2_mono k1 k2 H) as Hd.
  pose proof (nshift_nonneg k1) as Hn1. pose proof (nshift_nonneg k2) as Hn2.
  pose proof (nshift_eq k1) as E1. pose proof (nshift_eq k2) as E2.
  set (n1 := nshift e0 k1) in *. set (n2 := nshift e0 k2) in *.
  set (d1 := Zpos (digits2_pos k1)) in *. set (d2 := Zpos (digits2_pos k2)) in *.
  destruct (Z.eq_dec n1 n2) as [En|Hne].
  - rewrite En. apply Z.mul_le_mono_nonneg_r; [apply Z.lt_le_incl, pow2_pos; lia|].
    apply rne_mono; lia.
  - assert (Hlt : n1 < n2) by lia.
    assert (En2 : n2 = d2 - 53) by lia.
    assert (Hd12 : d1 < d2) by lia.
    pose proof (digits2_bounds k1) as [_ Hhi1]. fold d1 in Hhi1.
    pose proof (digits2_bounds k2) as [Hlo2 _]. fold d2 in Hlo2.
    (* the power of two between them is left fixed by both roundings *)
    assert (HP1 : rne (2 ^ (d2 - 1 - n1) * 2 ^ n1) n1 = 2 ^ (d2 - 1 - n1)).
    { apply rne_exact; [apply Z.lt_le_incl, pow2_pos; lia|lia]. }
    assert (HP2 : rne (2 ^ (d2 - 1 - n2) * 2 ^ n2) n2 = 2 ^ (d2 - 1 - n2)).
    { apply rne_exact; [apply Z.lt_le_incl, pow2_pos; lia|lia]. }
    rewrite <- pow2_split in HP1 by lia. rewrite <- pow2_split in HP2 by lia.
    assert (L1 : rne (Zpos k1) n1 <= rne (2 ^ (d2 - 1)) n1).
    { apply rne_mono; [lia| |lia].
      assert (2 ^ d1 <= 2 ^ (d2 - 1)) by (apply pow2_le; lia). lia. }
    assert (L2 : rne (2 ^ (d2 - 1)) n2 <= rne (Zpos k2) n2).
    { apply rne_mono; [apply Z.lt_le_incl, pow2_pos; lia|lia|lia]. }
    rewrite HP1 in L1. rewrite HP2 in L2.
    assert (A1 : rne (Zpos k1) n1 * 2 ^ n1 <= 2 ^ (d2 - 1)).
    { rewrite (pow2_split n1 (d2 - 1)) by lia.
      apply Z.mul_le_mono_nonneg_r; [apply Z.lt_le_incl, pow2_pos; lia|exact L1]. }
    assert (A2 : 2 ^ (d2 - 1) <= rne (Zpos k2) n2 * 2 ^ n2).
    { rewrite (pow2_split n2 (d2 - 1)) by lia.
      apply Z.mul_le_mono_nonneg_r; [apply Z.lt_le_incl, pow2_pos; lia|exact L2]. }
    lia.
Qed.
End FixedUnit.

(** comparisons of finite numbers of the same sign are lexicographic *)
Lemma SFleb_pos_lex (m1 m2 : positive) (e1 e2 : Z) :
  SFleb (S754_finite false m1 e1) (S754_finite false m2 e2) = true
  <-> e1 < e2 \/ (e1 = e2 /\ (m1 <= m2)%positive).
Proof.
  unfold SFleb, SFcompare. fold (Pos.compare m1 m2).
  destruct (Z.compare_spec e1 e2) as [Heq|Hlt|Hgt].
  - destruct (Pos.compare_spec m1 m2) as [Hm|Hm|Hm]; split; intros H;
      try discriminate; try reflexivity; try (right; split; lia).
    destruct H as [H|[_ H]]; lia.
  - split; [intros _; left; exact Hlt|reflexivity].
  - split; [discriminate|lia].
Qed.

Lemma SFleb_neg_lex (m1 m2 : positive) (e1 e2 : Z) :
  SFleb (S754_finite true m1 e1) (S754_finite true m2 e2) = true
  <-> e2 < e1 \/ (e2 = e1 /\ (m2 <= m1)%positive).
Proof.
  unfold SFleb, SFcompare. fold (Pos.compare m1 m2).
  destruct (Z.compare_spec e1 e2) as [Heq|Hlt|Hgt].
  - destruct (Pos.compare_spec m1 m2) as [Hm|Hm|Hm]; cbn [CompOpp]; split; intros H;
      try discriminate; try reflexivity; try (right; split; lia).
    destruct H as [H|[_ H]]; lia.
  - split; [discriminate|lia].
  - split; [intros _; left; exact Hgt|reflexivity].
Qed.

Section Rounding.
Variable e0 : Z.
Hypothesis He0 : e0 <= -1074.

Lemma units_pos (m : positive) (e : Z) : 0 < units e0 m e \/ e < e0.
Proof.
  destruct (Z.le_gt_cases e0 e) as [H|H]; [left|right; exact H].
  unfold units. apply Z.mul_pos_pos; [lia|apply pow2_pos; lia].
Qed.

Lemma round_pos_spec (s : bool) (k : positive) :
  (rv e0 k = 0
   /\ binary_round_aux prec emax s (Zpos k) e0 loc_Exact = S754_zero s)
  \/ exists mf ef,
       canonical_mantissa prec emax mf ef = true
       /\ units e0 mf ef = rv e0 k
       /\ binary_round_aux prec emax s (Zpos k) e0 loc_Exact
          = if ef <=? 971 then S754_finite s mf ef else S754_infinity s.
Proof.
  pose proof (nshift_nonneg e0 He0 k) as Hn.
  pose proof (nshift_eq e0 k) as En.
  assert (HE : e0 <= fexp prec emax (Zpos (digits2_pos k) + e0)).
  { rewrite fexp_eq. lia. }
  rewrite (bra_rne s k e0 HE). unfold rv. fold (nshift e0 k).
  set (n := nshift e0 k) in *.
  set (E := fexp prec emax (Zpos (digits2_pos k) + e0)).
  assert (EE : E = e0 + n) by (unfold E, n, nshift; lia).
  pose proof (digits2_bounds k) as [Hlo Hhi].
  set (d := Zpos (digits2_pos k)) in *.
  destruct (rne_nearest (Zpos k) n ltac:(lia) Hn) as (Hq0 & Hnear_lo & Hnear_hi).
  set (q := rne (Zpos k) n) in *.
  assert (HP : 0 < 2 ^ n) by (apply pow2_pos; exact Hn).
  assert (Hq53 : q <= 2 ^ 53).
  { assert (Hk : Zpos k < 2 ^ 53 * 2 ^ n).
    { rewrite <- Z.pow_add_r by lia.
      assert (2 ^ d <= 2 ^ (53 + n)) by (apply pow2_le; lia). lia. }
    destruct (Z.le_gt_cases q (2 ^ 53)) as [|Hgt]; [assumption|exfalso].
    assert ((2 ^ 53 + 1) * 2 ^ n <= q * 2 ^ n)
      by (apply Z.mul_le_mono_nonneg_r; lia).
    lia. }
  assert (Hnorm : -1074 < E -> 2 ^ 52 <= q).
  { intros HEn. assert (Hnd : n = d - 53) by lia.
    assert (X : rne (2 ^ 52 * 2 ^ n) n = 2 ^ 52) by (apply rne_exact; lia).
    rewrite <- X. apply rne_mono; [lia| |lia].
    rewrite <- Z.pow_add_r by lia. replace (52 + n) with (d - 1) by lia. exact Hlo. }
  destruct (Z.eq_dec q 0) as [Eq0|Hq].
  - left. rewrite Eq0. split; [lia|]. apply finish_zero. lia.
  - right.
    destruct (finish_spec s q E ltac:(lia) ltac:(lia) Hnorm)
      as (mf & ef & Hc & Hval & Hef & Hfin).
    exists mf, ef. split; [exact Hc|]. split; [|exact Hfin].
    unfold units. rewrite <- Hval.
    replace (ef - e0) with ((ef - E) + n) by lia.
    rewrite Z.pow_add_r by lia. ring.
Qed.


Lemma canonical_units_pos (m : positive) (e : Z) :
  canonical_mantissa prec emax m e = true -> 0 < units e0 m e.
Proof.
  intros C. destruct (canonical_inv m e C) as (He & _).
  destruct (units_pos m e) as [H|H]; [exact H|lia].
Qed.

Lemma RN_mono_pos (k1 k2 : positive) :
  (k1 <= k2)%positive -> SFleb (RN e0 (Zpos k1)) (RN e0 (Zpos k2)) = true.
Proof.
  intros H. pose proof (rv_mono e0 He0 k1 k2 H) as Hv. cbn [RN].
  destruct (round_pos_spec false k1) as [[V1 ->]|(m1 & e1 & C1 & U1 & ->)];
  destruct (round_pos_spec false k2) as [[V2 ->]|(m2 & e2 & C2 & U2 & ->)].
  - reflexivity.
  - destruct (e2 <=? 971); reflexivity.
  - exfalso. pose proof (canonical_units_pos m1 e1 C1). lia.
  - assert (Hlex : e1 < e2 \/ (e1 = e2 /\ (m1 <= m2)%positive)).
    { apply (canonical_lex e0 He0); [exact C1|exact C2|lia]. }
    destruct (Z.leb_spec e1 971), (Z.leb_spec e2 971).
    + apply SFleb_pos_lex. exact Hlex.
    + reflexivity.
    + exfalso. lia.
    + reflexivity.
Qed.

Lemma RN_mono_neg (k1 k2 : positive) :
  (k2 <= k1)%positive -> SFleb (RN e0 (Zneg k1)) (RN e0 (Zneg k2)) = true.
Proof.
  intros H. pose proof (rv_mono e0 He0 k2 k1 H) as Hv. cbn [RN].
  destruct (round_pos_spec true k1) as [[V1 ->]|(m1 & e1 & C1 & U1 & ->)];
  destruct (round_pos_spec true k2) as [[V2 ->]|(m2 & e2 & C2 & U2 & ->)].
  - reflexivity.
  - exfalso. pose proof (canonical_units_pos m2 e2 C2). lia.
  - destruct (e1 <=? 971); reflexivity.
  - assert (Hlex : e2 < e1 \/ (e2 = e1 /\ (m2 <= m1)%positive)).
    { apply (canonical_lex e0 He0); [exact C2|exact C1|lia]. }
    destruct (Z.leb_spec e1 971), (Z.leb_spec e2 971).
    + apply SFleb_neg_lex. exact Hlex.
    + exfalso. lia.
    + reflexivity.
    + reflexivity.
Qed.

Lemma RN_sign_pos (k : positive) :
  RN e0 (Zpos k) = S754_zero false
  \/ (exists m e, RN e0 (Zpos k) = S754_finite false m e)
  \/ RN e0 (Zpos k) = S754_infinity false.
Proof.
  cbn [RN].
  destruct (round_pos_spec false k) as [[_ ->]|(m & e & _ & _ & ->)];
    [left; reflexivity|].
  destruct (e <=? 971); [right; left; eauto|right; right; reflexivity].
Qed.

Lemma RN_sign_neg (k : positive) :
  RN e0 (Zneg k) = S754_zero true
  \/ (exists m e, RN e0 (Zneg k) = S754_finite true m e)
  \/ RN e0 (Zneg k) = S754_infinity true.
Proof.
  cbn [RN].
  destruct (round_pos_spec true k) as [[_ ->]|(m & e & _ & _ & ->)];
    [left; reflexivity|].
  destruct (e <=? 971); [right; left; eauto|right; right; reflexivity].
Qed.

Lemma RN_mono (K1 K2 : Z) : K1 <= K2 -> SFleb (RN e0 K1) (RN e0 K2) = true.
Proof.
  intros H. destruct K1 as [|k1|k1], K2 as [|k2|k2]; try lia.
  - reflexivity.
  - destruct (RN_sign_pos k2) as [->|[(m & e & ->)| ->]]; reflexivity.
  - apply RN_mono_pos. lia.
  - destruct (RN_sign_neg k1) as [->|[(m & e & ->)| ->]]; reflexivity.
  - destruct (RN_sign_neg k1) as [->|[(m & e & ->)| ->]];
    destruct (RN_sign_pos k2) as [->|[(m' & e' & ->)| ->]]; reflexivity.
  - apply RN_mono_neg. lia.
Qed.
End Rounding.

(** scaling the mantissa and lowering the exponent does not change the
    rounded number *)
Lemma digits2_scaled (m m' : positive) (j : Z) :
  0 <= j -> Zpos m' = Zpos m * 2 ^ j ->
  Zpos (digits2_pos m') = Zpos (digits2_pos m) + j.
Proof.
  intros Hj E. pose proof (digits2_bounds m) as [Hlo Hhi].
  assert (Hp : 0 < 2 ^ j) by (apply pow2_pos; exact Hj).
  apply digits2_unique. rewrite E.
  replace (Zpos (digits2_pos m) + j - 1) with ((Zpos (digits2_pos m) - 1) + j) by lia.
  rewrite !Z.pow_add_r by lia. split.
  - apply Z.mul_le_mono_nonneg_r; lia.
  - apply Z.mul_lt_mono_pos_r; lia.
Qed.

Lemma bra_scaled (s : bool) (m m' : positive) (e j : Z) :
  0 <= j -> Zpos m' = Zpos m * 2 ^ j ->
  e <= fexp prec emax (Zpos (digits2_pos m) + e) ->
  binary_round_aux prec emax s (Zpos m') (e - j) loc_Exact
  = binary_round_aux prec emax s (Zpos m) e loc_Exact.
Proof.
  intros Hj E Hn.
  pose proof (digits2_scaled m m' j Hj E) as Ed.
  assert (EE : fexp prec emax (Zpos (digits2_pos m') + (e - j))
               = fexp prec emax (Zpos (digits2_pos m) + e)).
  { f_equal. lia. }
  rewrite (bra_rne s m e Hn).
  rewrite (bra_rne s m' (e - j)) by (rewrite EE; lia).
  rewrite EE. f_equal. rewrite E.
  replace (fexp prec emax (Zpos (digits2_pos m) + e) - (e - j))
    with ((fexp prec emax (Zpos (digits2_pos m) + e) - e) + j) by lia.
  apply rne_scaled; lia.
Qed.

Lemma pos_iter_xO (m d : positive) : Zpos (Pos.iter xO m d) = Zpos m * 2 ^ Zpos d.
Proof.
  induction d as [|d IH] using Pos.peano_ind.
  - cbn. lia.
  - rewrite Pos.iter_succ, Pos2Z.inj_succ, Z.pow_succ_r by lia.
    rewrite Pos2Z.inj_xO, IH. ring.
Qed.

Lemma shl_align_fst (m : positive) (e ez : Z) :
  ez <= e -> Zpos (fst (shl_align m e ez)) = Zpos m * 2 ^ (e - ez).
Proof.
  intros H. unfold shl_align. destruct (ez - e) as [|d|d] eqn:Ed; cbn [fst].
  - replace (e - ez) with 0 by lia. lia.
  - lia.
  - rewrite pos_iter_xO. f_equal. f_equal. lia.
Qed.

(** [binary_round] in units of [2^-1074] *)
Lemma binary_round_units (s : bool) (k k' : positive) (ez : Z) :
  -1074 <= ez -> Zpos k' = Zpos k * 2 ^ (ez + 1074) ->
  binary_round prec emax s k ez
  = binary_round_aux prec emax s (Zpos k') (-1074) loc_Exact.
Proof.
  intros Hez Ek. unfold binary_round.
  set (E := fexp prec emax (Zpos (digits2_pos k) + ez)).
  assert (HE : -1074 <= E) by (unfold E; rewrite fexp_eq; lia).
  unfold shl_align. destruct (E - ez) as [|d|d] eqn:Ed.
  - replace (-1074) with (ez - (ez + 1074)) by lia.
    symmetry. apply bra_scaled; [lia|exact Ek|fold E; lia].
  - replace (-1074) with (ez - (ez + 1074)) by lia.
    symmetry. apply bra_scaled; [lia|exact Ek|fold E; lia].
  - (* fewer than 53 digits: the mantissa is first widened *)
    pose proof (pos_iter_xO k d) as Ew.
    set (w := Pos.iter xO k d) in *.
    replace (-1074) with (E - (E + 1074)) by lia.
    symmetry. apply bra_scaled; [lia| |].
    + rewrite Ew, Ek. rewrite <- Z.mul_assoc, <- Z.pow_add_r by lia.
      f_equal. f_equal. lia.
    + assert (Zpos (digits2_pos w) = Zpos (digits2_pos k) + Zpos d)
        by (apply digits2_scaled; [lia|exact Ew]).
      replace (Zpos (digits2_pos w) + E) with (Zpos (digits2_pos k) + ez) by lia.
      fold E. lia.
Qed.

Lemma binary_normalize_units (z : Z) (ez : Z) :
  -1074 <= ez ->
  binary_normalize prec emax z ez false = RN (-1074) (z * 2 ^ (ez + 1074)).
Proof.
  intros Hez. assert (Hp : 0 < 2 ^ (ez + 1074)) by (apply pow2_pos; lia).
  destruct z as [|k|k]; cbn [binary_normalize].
  - reflexivity.
  - destruct (Zpos k * 2 ^ (ez + 1074)) as [|k'|k'] eqn:Ek; try lia.
    cbn [RN]. apply binary_round_units; [exact Hez|lia].
  - destruct (Zneg k * 2 ^ (ez + 1074)) as [|k'|k'] eqn:Ek; try lia.
    cbn [RN]. apply binary_round_units; [exact Hez|lia].
Qed.


Lemma valid_finite (s : bool) (m : positive) (e : Z) :
  valid_binary (S754_finite s m e) = true ->
  canonical_mantissa prec emax m e = true /\ -1074 <= e.
Proof.
  cbn [SpecFloat.valid_binary]. unfold bounded. intros H.
  apply andb_true_iff in H. destruct H as [C _]. split; [exact C|].
  apply (canonical_inv m e C).
Qed.

Lemma ival_pos (m : positive) (e : Z) : -1074 <= e -> 0 < Zpos m * 2 ^ (e + 1074).
Proof. intros. apply Z.mul_pos_pos; [lia|apply pow2_pos; lia]. Qed.

Lemma SFleb_ival (x1 x2 : spec_float) :
  valid_binary x1 = true -> valid_binary x2 = true ->
  is_finite_SF x1 = true -> is_finite_SF x2 = true ->
  SFleb x1 x2 = true -> ival x1 <= ival x2.
Proof.
  intros V1 V2 F1 F2 H.
  destruct x1 as [s1| | |s1 m1 e1], x2 as [s2| | |s2 m2 e2];
    try (cbn in F1; discriminate F1); try (cbn in F2; discriminate F2);
    cbn [ival].
  - lia.
  - destruct (valid_finite _ _ _ V2) as [_ He]. pose proof (ival_pos m2 e2 He).
    destruct s2; [discriminate H|cbn [cond_Zopp]; lia].
  - destruct (valid_finite _ _ _ V1) as [_ He]. pose proof (ival_pos m1 e1 He).
    destruct s1; [cbn [cond_Zopp]; lia|discriminate H].
  - destruct (valid_finite _ _ _ V1) as [C1 He1].
    destruct (valid_finite _ _ _ V2) as [C2 He2].
    pose proof (ival_pos m1 e1 He1). pose proof (ival_pos m2 e2 He2).
    destruct s1, s2; cbn [cond_Zopp]; try lia.
    + apply SFleb_neg_lex in H.
      pose proof (lex_units (-1074) ltac:(lia) m2 m1 e2 e1 C2 C1 H) as L.
      unfold units in L.
      replace (e2 - -1074) with (e2 + 1074) in L by lia.
      replace (e1 - -1074) with (e1 + 1074) in L by lia. lia.
    + discriminate H.
    + apply SFleb_pos_lex in H.
      pose proof (lex_units (-1074) ltac:(lia) m1 m2 e1 e2 C1 C2 H) as L.
      unfold units in L.
      replace (e2 - -1074) with (e2 + 1074) in L by lia.
      replace (e1 - -1074) with (e1 + 1074) in L by lia. lia.
Qed.


Lemma SFleb_nz (a b : spec_float) : SFleb a b = SFleb (nz a) (nz b).
Proof. destruct a as [[]|[]| |[] ? ?], b as [[]|[]| |[] ? ?]; reflexivity. Qed.

Lemma SFleb_ninf_l (a : spec_float) :
  a <> S754_nan -> SFleb (S754_infinity true) a = true.
Proof. destruct a as [[]|[]| |[] ? ?]; intros H; try reflexivity; contradiction. Qed.

Lemma SFleb_pinf_r (a : spec_float) :
  a <> S754_nan -> SFleb a (S754_infinity false) = true.
Proof. destruct a as [[]|[]| |[] ? ?]; intros H; try reflexivity; contradiction. Qed.

Lemma SFleb_kinds (a b : spec_float) :
  SFleb a b = true ->
  a = S754_infinity true \/ b = S754_infinity false
  \/ (is_finite_SF a = true /\ is_finite_SF b = true).
Proof.
  destruct a as [[]|[]| |[] ? ?], b as [[]|[]| |[] ? ?]; intros H;
    try discriminate H; auto.
Qed.

Lemma RN_not_nan (e0 K : Z) : e0 <= -1074 -> RN e0 K <> S754_nan.
Proof.
  intros He0. destruct K as [|k|k].
  - discriminate.
  - destruct (RN_sign_pos e0 He0 k) as [->|[(m & e & ->)| ->]]; discriminate.
  - destruct (RN_sign_neg e0 He0 k) as [->|[(m & e & ->)| ->]]; discriminate.
Qed.

Lemma nz_not_nan (a b : spec_float) : nz a = nz b -> b <> S754_nan -> a <> S754_nan.
Proof. destruct a, b; cbn; congruence. Qed.

Lemma SFleb_not_nan (a b : spec_float) :
  SFleb a b = true -> a <> S754_nan /\ b <> S754_nan.
Proof. destruct a as [[]|[]| |[] ? ?], b as [[]|[]| |[] ? ?]; intros H; try discriminate H; split; discriminate. Qed.

(** multiplication by a positive normal number *)
Section Slope.
Variables (mM : positive) (eM : Z).
Hypothesis HM : Zpos (digits2_pos mM) = 53.

Lemma slope_unit_le : slope_unit eM <= -1074.
Proof. unfold slope_unit. lia. Qed.

Lemma slope_scale_pos : 0 < slope_scale mM eM.
Proof. unfold slope_scale. apply Z.mul_pos_pos; [lia|apply pow2_pos; lia]. Qed.

Lemma SFmul_units (x : spec_float) :
  valid_binary x = true -> is_finite_SF x = true ->
  nz (SFmul prec emax (S754_finite false mM eM) x)
  = nz (RN (slope_unit eM) (slope_scale mM eM * ival x)).
Proof.
  intros V F. destruct x as [s| | |s m e]; try discriminate F.
  - cbn [SFmul ival nz]. rewrite Z.mul_0_r. reflexivity.
  - destruct (valid_finite _ _ _ V) as [C He].
    f_equal. cbn [SFmul ival xorb].
    pose proof slope_scale_pos as HcM.
    pose proof (ival_pos m e He) as Hv.
    set (j := eM + e - slope_unit eM).
    assert (Hj : 0 <= j) by (unfold j, slope_unit; lia).
    assert (Ek : slope_scale mM eM * (Zpos m * 2 ^ (e + 1074))
                 = Zpos (mM * m) * 2 ^ j).
    { unfold slope_scale, j, slope_unit. rewrite Pos2Z.inj_mul.
      replace (eM + e - (Z.min eM 0 - 1074))
        with ((eM - Z.min eM 0) + (e + 1074)) by lia.
      rewrite (Z.pow_add_r 2 (eM - Z.min eM 0) (e + 1074)) by lia. ring. }
    assert (Hd : eM + e <= fexp prec emax (Zpos (digits2_pos (mM * m)) + (eM + e))).
    { rewrite fexp_eq.
      pose proof (digits2_bounds mM) as [Hlo _]. rewrite HM in Hlo.
      pose proof (digits2_bounds (mM * m)) as [_ Hhi].
      assert (2 ^ 52 <= Zpos (mM * m)) by (rewrite Pos2Z.inj_mul; nia).
      destruct (Z.le_gt_cases 53 (Zpos (digits2_pos (mM * m)))) as [|Hlt];
        [lia|exfalso].
      assert (2 ^ Zpos (digits2_pos (mM * m)) <= 2 ^ 52) by (apply pow2_le; lia).
      lia. }
    replace (slope_unit eM) with (eM + e - j) by (unfold j; lia).
    destruct s; cbn [cond_Zopp].
    + rewrite Z.mul_opp_r, Ek.
      destruct (Zpos (mM * m) * 2 ^ j) as [|k|k] eqn:E';
        try (pose proof (pow2_pos j Hj); lia).
      cbn [Z.opp RN]. symmetry. apply bra_scaled; [exact Hj|lia|exact Hd].
    + rewrite Ek.
      destruct (Zpos (mM * m) * 2 ^ j) as [|k|k] eqn:E';
        try (pose proof (pow2_pos j Hj); lia).
      cbn [RN]. symmetry. apply bra_scaled; [exact Hj|lia|exact Hd].
Qed.

Lemma SFmul_mono (x1 x2 : spec_float) :
  valid_binary x1 = true -> valid_binary x2 = true ->
  SFleb x1 x2 = true ->
  SFleb (SFmul prec emax (S754_finite false mM eM) x1)
        (SFmul prec emax (S754_finite false mM eM) x2) = true.
Proof.
  intros V1 V2 H.
  pose proof slope_unit_le as He0.
  assert (NN : forall x, valid_binary x = true -> x <> S754_nan ->
                         SFmul prec emax (S754_finite false mM eM) x <> S754_nan).
  { intros x V Hx. destruct x as [s|s| |s m e]; try discriminate; [contradiction|].
    apply (nz_not_nan _ _ (SFmul_units _ V eq_refl)). apply RN_not_nan. exact He0. }
  destruct (SFleb_not_nan _ _ H) as [N1 N2].
  destruct (SFleb_kinds _ _ H) as [->|[->|[F1 F2]]].
  - apply SFleb_ninf_l. apply NN; assumption.
  - apply SFleb_pinf_r. apply NN; assumption.
  - rewrite SFleb_nz, (SFmul_units x1 V1 F1), (SFmul_units x2 V2 F2), <- SFleb_nz.
    apply RN_mono; [exact He0|].
    apply Z.mul_le_mono_nonneg_l.
    + apply Z.lt_le_incl, slope_scale_pos.
    + apply SFleb_ival; assumption.
Qed.
End Slope.

(** adding a finite number *)
Lemma RN_canonical (s : bool) (m : positive) (e : Z) :
  valid_binary (S754_finite s m e) = true ->
  RN (-1074) (ival (S754_finite s m e)) = S754_finite s m e.
Proof.
  intros V. destruct (valid_finite _ _ _ V) as [C He].
  cbn [SpecFloat.valid_binary] in V. unfold bounded in V.
  apply andb_true_iff in V. destruct V as [_ Hmax]. 
  pose proof (ival_pos m e He) as Hv. cbn [ival].
  assert (Hc : fexp prec emax (Zpos (digits2_pos m) + e) = e).
  { unfold canonical_mantissa in C. apply Z.eqb_eq in C. exact C. }
  assert (Hb : binary_round_aux prec emax s (Zpos m) e loc_Exact = S754_finite s m e).
  { rewrite bra_rne by (rewrite Hc; lia). rewrite Hc.
    replace (e - e) with 0 by lia. rewrite rne_0.
    unfold finish, shr_fexp. cbn [Zdigits2 shr_record_of_loc]. rewrite Hc.
    replace (e - e) with 0 by lia. cbn [shr shr_m].
    change (emax - prec) with 971. change (e <=? 971) with (e <=? emax - prec).
    rewrite Hmax. reflexivity. }
  destruct (Zpos m * 2 ^ (e + 1074)) as [|k|k] eqn:Ek; try lia.
  destruct s; cbn [cond_Zopp Z.opp RN]; rewrite <- Hb;
    replace (-1074) with (e - (e + 1074)) by lia;
    (apply bra_scaled; [lia|lia|rewrite Hc; lia]).
Qed.

Section Intercept.
Variables (sB : bool) (mB : positive) (eB : Z).
Hypothesis VB : valid_binary (S754_finite sB mB eB) = true.

Lemma SFadd_units (p : spec_float) :
  valid_binary p = true -> is_finite_SF p = true ->
  SFadd prec emax p (S754_finite sB mB eB)
  = RN (-1074) (ival p + ival (S754_finite sB mB eB)).
Proof.
  intros V F. destruct p as [s| | |s m e]; try discriminate F.
  - cbn [SFadd]. change (ival (S754_zero s)) with 0. rewrite Z.add_0_l.
    symmetry. apply RN_canonical. exact VB.
  - destruct (valid_finite _ _ _ V) as [_ He].
    destruct (valid_finite _ _ _ VB) as [_ HeB].
    cbn [SFadd]. set (ez := Z.min e eB).
    rewrite binary_normalize_units by (unfold ez; lia).
    f_equal. rewrite Z.mul_add_distr_r. cbn [ival].
    rewrite !shl_align_fst by (unfold ez; lia).
    assert (E1 : Zpos m * 2 ^ (e - ez) * 2 ^ (ez + 1074) = Zpos m * 2 ^ (e + 1074)).
    { rewrite <- Z.mul_assoc, <- Z.pow_add_r by (unfold ez; lia).
      f_equal. f_equal. lia. }
    assert (E2 : Zpos mB * 2 ^ (eB - ez) * 2 ^ (ez + 1074) = Zpos mB * 2 ^ (eB + 1074)).
    { rewrite <- Z.mul_assoc, <- Z.pow_add_r by (unfold ez; lia).
      f_equal. f_equal. lia. }
    destruct s, sB; cbn [cond_Zopp]; rewrite ?Z.mul_opp_l, E1, E2; reflexivity.
Qed.

Lemma SFadd_mono (p1 p2 : spec_float) :
  valid_binary p1 = true -> valid_binary p2 = true ->
  SFleb p1 p2 = true ->
  SFleb (SFadd prec emax p1 (S754_finite sB mB eB))
        (SFadd prec emax p2 (S754_finite sB mB eB)) = true.
Proof.
  intros V1 V2 H.
  assert (NN : forall p, valid_binary p = true -> p <> S754_nan ->
                         SFadd prec emax p (S754_finite sB mB eB) <> S754_nan).
  { intros p V Hp. destruct p as [s|s| |s m e]; try discriminate; [contradiction|].
    rewrite (SFadd_units _ V eq_refl). apply RN_not_nan. lia. }
  destruct (SFleb_not_nan _ _ H) as [N1 N2].
  destruct (SFleb_kinds _ _ H) as [->|[->|[F1 F2]]].
  - apply SFleb_ninf_l. apply NN; assumption.
  - apply SFleb_pinf_r. apply NN; assumption.
  - rewrite (SFadd_units p1 V1 F1), (SFadd_units p2 V2 F2).
    apply RN_mono; [lia|].
    pose proof (SFleb_ival p1 p2 V1 V2 F1 F2 H). lia.
Qed.
End Intercept.

(** a line with a positive normal slope and a finite intercept is
    non-decreasing in binary64 *)
Theorem b64_line_monotone (m b x1 x2 : float) (mM mB : positive) (eM eB : Z) (sB : bool) :
  Prim2SF m = S754_finite false mM eM -> Zpos (digits2_pos mM) = 53 ->
  Prim2SF b = S754_finite sB mB eB ->
  PrimFloat.leb x1 x2 = true ->
  PrimFloat.leb (m * x1 + b)%float (m * x2 + b)%float = true.
Proof.
  intros Em Hd Eb H.
  rewrite leb_spec in H. rewrite leb_spec, !add_spec, Eb.
  assert (VB : valid_binary (S754_finite sB mB eB) = true)
    by (rewrite <- Eb; apply Prim2SF_valid).
  apply (SFadd_mono sB mB eB VB); try apply Prim2SF_valid.
  rewrite !mul_spec, Em.
  apply (SFmul_mono mM eM Hd); try apply Prim2SF_valid. exact H.
Qed.
End B64Rounding.

(** ** Monotonicity *)

(** C7, as stated, fails in binary64: [10.000000000000004 <
    10.000000000000005], and the model returns the same value,
    [5.6843418860808015e-14], at both. *)
Lemma model_not_strictly_increasing_b64 :
  PrimFloat.ltb x_above_10_a x_above_10_b = true
  /\ model x_above_10_a = Ok 0x1p-44%float
  /\ model x_above_10_b = Ok 0x1p-44%float
  /\ ~ (forall x1 x2 y1 y2 : float,
          PrimFloat.ltb x1 x2 = true -> model x1 = Ok y1 -> model x2 = Ok y2 ->
          PrimFloat.ltb y1 y2 = true).
Proof.
  assert (Ha : model x_above_10_a = Ok 0x1p-44%float) by (vm_compute; reflexivity).
  assert (Hb : model x_above_10_b = Ok 0x1p-44%float) by (vm_compute; reflexivity).
  assert (Hlt : PrimFloat.ltb x_above_10_a x_above_10_b = true)
    by (vm_compute; reflexivity).
  repeat split; try assumption.
  intros Hall.
  specialize (Hall x_above_10_a x_above_10_b 0x1p-44%float 0x1p-44%float Hlt Ha Hb).
  vm_compute in Hall. discriminate Hall.
Qed.

(** In exact arithmetic the default line is strictly increasing. *)
Lemma frac_model_increasing (x1 x2 : Qc) :
  (x1 < x2)%Qc ->
  exists y1 y2, model x1 = Ok y1 /\ model x2 = Ok y2 /\ (y1 < y2)%Qc.
Proof.
  intros Hx. exists (slope * x1 + intercept)%Qc, (slope * x2 + intercept)%Qc.
  split; [apply frac_model_unfold|]. split; [apply frac_model_unfold|].
  apply Qclt_minus_iff.
  replace (slope * x2 + intercept + - (slope * x1 + intercept))%Qc
    with ((x2 + - x1) * slope)%Qc by ring.
  replace 0%Qc with (0 * slope (T:=Qc))%Qc by ring.
  apply Qcmult_lt_compat_r; [exact frac_slope_pos|].
  apply (proj1 (Qclt_minus_iff x1 x2)). exact Hx.
Qed.

Lemma integer_levels_in (n : Z) : (10 <= n <= 80)%Z -> In n integer_levels.
Proof.
  intros Hn. unfold integer_levels. rewrite <- (Z2Nat.id n) by lia.
  apply in_map, in_seq. lia.
Qed.

(** In binary64 the model is strictly increasing over the integer levels
    10..80. *)
Lemma b64_model_increasing_on_levels (n1 n2 : Z) :
  (10 <= n1)%Z -> (n1 < n2)%Z -> (n2 <= 80)%Z ->
  exists y1 y2,
    model (float_of_int n1) = Ok y1 /\ model (float_of_int n2) = Ok y2
    /\ PrimFloat.ltb y1 y2 = true.
Proof.
  intros H1 H12 H2.
  assert (Hall : forallb (fun a => forallb (fun b =>
                    implb (a <? b)%Z
                      (PrimFloat.ltb (slope * float_of_int a + intercept)
                                     (slope * float_of_int b + intercept)))
                    integer_levels) integer_levels = true)
    by (vm_compute; reflexivity).
  assert (In1 : In n1 integer_levels) by (apply integer_levels_in; lia).
  assert (In2 : In n2 integer_levels) by (apply integer_levels_in; lia).
  rewrite forallb_forall in Hall. specialize (Hall n1 In1).
  rewrite forallb_forall in Hall. specialize (Hall n2 In2).
  replace (n1 <? n2)%Z with true in Hall by (symmetry; apply Z.ltb_lt; exact H12).
  do 2 eexists. split; [apply b64_model_unfold|].
  split; [apply b64_model_unfold|]. exact Hall.
Qed.

(** In binary64 the default line never decreases, whatever the inputs. *)
Lemma b64_model_monotone (x1 x2 : float) :
  PrimFloat.leb x1 x2 = true ->
  PrimFloat.leb (slope * x1 + intercept)%float (slope * x2 + intercept)%float = true.
Proof.
  intros H.
  eapply (b64_line_monotone slope intercept x1 x2);
    [vm_compute; reflexivity | vm_compute; reflexivity
     | vm_compute; reflexivity | exact H].
Qed.

(** C7, amended. In binary64 the model is monotonically non-decreasing:
    for every pair of inputs [x1 <= x2] (so for every [x1 < x2]),
    [model(x1) <= model(x2)].  The inequality is strict in exact arithmetic,
    and in binary64 over the integer challenge levels 10..80 and over the 500
    inputs of the dense curve. *)
Theorem model_increasing :
  (forall x1 x2 : float, PrimFloat.leb x1 x2 = true ->
     exists y1 y2,
       model x1 = Ok y1 /\ model x2 = Ok y2 /\ PrimFloat.leb y1 y2 = true)
  /\ (forall x1 x2 : Qc, (x1 < x2)%Qc ->
        exists y1 y2, model x1 = Ok y1 /\ model x2 = Ok y2 /\ (y1 < y2)%Qc)
  /\ (forall n1 n2 : Z, (10 <= n1)%Z -> (n1 < n2)%Z -> (n2 <= 80)%Z ->
        exists y1 y2,
          model (float_of_int n1) = Ok y1 /\ model (float_of_int n2) = Ok y2
          /\ PrimFloat.ltb y1 y2 = true)
  /\ increasing x_values = true
  /\ exists ys, y_values = Ok ys /\ increasing ys = true.
Proof.
  split.
  { intros x1 x2 H. do 2 eexists.
    split; [apply b64_model_unfold|]. split; [apply b64_model_unfold|].
    apply b64_model_monotone. exact H. }
  split; [exact frac_model_increasing|].
  split; [exact b64_model_increasing_on_levels|].
  split; [vm_compute; reflexivity|].
  eexists. split; vm_compute; reflexivity.
Qed.

(** ** Errors and effects of a call *)

Section IntToDouble.
Local Open Scope Z_scope.

Lemma SFleb_finite_r (a : spec_float) (s : bool) (m : positive) (e : Z) :
  SFleb a (S754_finite s m e) = true -> a <> S754_infinity false.
Proof. intros H E. rewrite E in H. discriminate H. Qed.

Lemma SFleb_finite_l (a : spec_float) (s : bool) (m : positive) (e : Z) :
  SFleb (S754_finite s m e) a = true -> a <> S754_infinity true.
Proof. intros H E. rewrite E in H. destruct s; discriminate H. Qed.

Lemma SFleb_pinf_l (a : spec_float) :
  SFleb (S754_infinity false) a = true -> a = S754_infinity false.
Proof. destruct a as [[]|[]| |[] ? ?]; intros H; try discriminate H; reflexivity. Qed.

Lemma SFleb_ninf_r (a : spec_float) :
  SFleb a (S754_infinity true) = true -> a = S754_infinity true.
Proof. destruct a as [[]|[]| |[] ? ?]; intros H; try discriminate H; reflexivity. Qed.

Lemma RN_largest :
  RN (-1074) ((int_overflow_bound - 1) * 2 ^ 1074)
  = S754_finite false 9007199254740991 971.
Proof. vm_compute. reflexivity. Qed.

Lemma RN_smallest :
  RN (-1074) (- (int_overflow_bound - 1) * 2 ^ 1074)
  = S754_finite true 9007199254740991 971.
Proof. vm_compute. reflexivity. Qed.

Lemma RN_overflow :
  RN (-1074) (int_overflow_bound * 2 ^ 1074) = S754_infinity false.
Proof. vm_compute. reflexivity. Qed.

Lemma RN_overflow_neg :
  RN (-1074) (- int_overflow_bound * 2 ^ 1074) = S754_infinity true.
Proof. vm_compute. reflexivity. Qed.

(** An [int] becomes a float exactly when its magnitude is below
    [2^1024 - 2^970]. *)
Lemma int_as_double_spec (n : Z) :
  int_as_double n
  = if Z.abs n <? int_overflow_bound then Ok (float_of_int n)
    else Raise OverflowError.
Proof.
  unfold int_as_double.
  rewrite (binary_normalize_units n 0) by lia.
  replace (0 + 1074) with 1074 by lia.
  assert (Hp : 0 < 2 ^ 1074) by (apply pow2_pos; lia).
  assert (He : -1074 <= -1074) by lia.
  destruct (Z.ltb_spec (Z.abs n) int_overflow_bound) as [Hlt|Hge].
  - assert (Hup : n * 2 ^ 1074 <= (int_overflow_bound - 1) * 2 ^ 1074)
      by (apply Z.mul_le_mono_nonneg_r; lia).
    assert (Hlo : - (int_overflow_bound - 1) * 2 ^ 1074 <= n * 2 ^ 1074)
      by (apply Z.mul_le_mono_nonneg_r; lia).
    pose proof (RN_mono (-1074) He _ _ Hup) as U. rewrite RN_largest in U.
    pose proof (RN_mono (-1074) He _ _ Hlo) as L. rewrite RN_smallest in L.
    apply SFleb_finite_r in U. apply SFleb_finite_l in L.
    destruct (RN (-1074) (n * 2 ^ 1074)) as [s|[]| |s m e];
      try reflexivity; contradiction.
  - destruct (Z.le_ge_cases 0 n) as [Hn|Hn].
    + assert (Hup : int_overflow_bound * 2 ^ 1074 <= n * 2 ^ 1074)
        by (apply Z.mul_le_mono_nonneg_r; lia).
      pose proof (RN_mono (-1074) He _ _ Hup) as U. rewrite RN_overflow in U.
      apply SFleb_pinf_l in U. rewrite U. reflexivity.
    + assert (Hlo : n * 2 ^ 1074 <= - int_overflow_bound * 2 ^ 1074)
        by (apply Z.mul_le_mono_nonneg_r; lia).
      pose proof (RN_mono (-1074) He _ _ Hlo) as L. rewrite RN_overflow_neg in L.
      apply SFleb_ninf_r in L. rewrite L. reflexivity.
Qed.
End IntToDouble.

(** Slope and intercept of the default call, from its [int] defaults. *)
Lemma py_default_slope :
  (d1 <- py_sub (PyInt 960) (PyInt 0) ;; d2 <- py_sub (PyInt 80) (PyInt 10) ;;
   py_truediv d1 d2) = Ok (slope (T:=float)).
Proof. vm_compute. reflexivity. Qed.

Lemma py_default_intercept :
  (t <- float_mul slope (PyInt 10) ;; rsub_float (PyInt 0) t)
  = Ok (intercept (T:=float)).
Proof. vm_compute. reflexivity. Qed.

Lemma py_model_unfold (x : pyobj) (h : store) :
  py_model x h = (u <~ obj_mul slope x ;; obj_add u intercept) h.
Proof.
  unfold py_model, py_cube_lifetime.
  unfold bind_py at 1. unfold lift at 1. rewrite py_default_slope.
  unfold bind_py at 1. unfold lift at 1. rewrite py_default_intercept.
  reflexivity.
Qed.

Lemma py_model_float (x : float) (h : store) :
  py_model (Scalar (PyFloat x)) h
  = (Ok (Scalar (PyFloat (slope * x + intercept))), h).
Proof. rewrite py_model_unfold. reflexivity. Qed.

Lemma py_model_int (n : Z) (h : store) :
  py_model (Scalar (PyInt n)) h
  = if (Z.abs n <? int_overflow_bound)%Z
    then (Ok (Scalar (PyFloat (slope * float_of_int n + intercept))), h)
    else (Raise OverflowError, h).
Proof.
  rewrite py_model_unfold.
  unfold bind_py, obj_mul, lift, float_mul, as_double.
  rewrite int_as_double_spec.
  destruct (Z.abs n <? int_overflow_bound)%Z; reflexivity.
Qed.

Lemma py_model_array (r : nat) (h : store) :
  py_model (NdArray r) h
  = (Ok (NdArray (S (List.length h))),
     h ++ [Float64Array (map (fun v => slope * v)%float
                             (as_float64 (nth r h (Float64Array []))));
           Float64Array (map (fun v => slope * v + intercept)%float
                             (as_float64 (nth r h (Float64Array []))))]).
Proof.
  rewrite py_model_unfold.
  cbv [bind_py obj_mul obj_add get_array new_array ret].
  rewrite app_nth2 by lia. rewrite Nat.sub_diag. cbn [nth as_float64].
  rewrite map_map, length_app, <- app_assoc. cbn [List.length app].
  f_equal. f_equal. f_equal. lia.
Qed.

(** The store after a call: what was there, and what the call allocated;
    nothing for a scalar. *)
Lemma py_cube_lifetime_frame (x : pyobj) (e1 e2 c1 c2 : pynum) (h : store) :
  exists l, snd (py_cube_lifetime x e1 e2 c1 c2 h) = h ++ l
            /\ (forall v, x = Scalar v -> l = []).
Proof.
  unfold py_cube_lifetime.
  unfold bind_py at 1. unfold lift at 1.
  destruct (d1 <- py_sub e2 e1 ;; d2 <- py_sub c2 c1 ;; py_truediv d1 d2) as [m|e].
  2:{ exists []. rewrite app_nil_r. split; [reflexivity|intros; reflexivity]. }
  unfold bind_py at 1. unfold lift at 1.
  destruct (t <- float_mul m c1 ;; rsub_float e1 t) as [b|e].
  2:{ exists []. rewrite app_nil_r. split; [reflexivity|intros; reflexivity]. }
  destruct x as [v|r].
  - exists []. rewrite app_nil_r. split; [|intros; reflexivity].
    unfold bind_py, obj_mul, lift.
    destruct (float_mul m v) as [y|e]; reflexivity.
  - eexists. split; [|intros v E; discriminate E].
    cbv [bind_py obj_mul obj_add get_array new_array ret]. cbn [snd].
    rewrite <- app_assoc. reflexivity.
Qed.

(** Calibration values are objects too: an [int] too large for the
    quotient, and two equal calibration inputs. *)
Example py_cube_lifetime_large_e2 :
  fst (py_cube_lifetime (Scalar (PyFloat 1)) (PyInt 0) (PyInt (10 ^ 400))
                        (PyInt 10) (PyInt 80) [])
  = Raise OverflowError.
Proof. vm_compute. reflexivity. Qed.

Example py_cube_lifetime_equal_inputs :
  fst (py_cube_lifetime (Scalar (PyFloat 1)) (PyInt 0) (PyInt 960)
                        (PyInt 10) (PyFloat 10) [])
  = Raise ZeroDivisionError.
Proof. vm_compute. reflexivity. Qed.

(** Lines 20-21 on the two arrays of the script: each call leaves them as
    they are and returns a new array, [y_values] and [y_values_points]. *)
Example py_model_script_calls :
  let h := [Float64Array x_values; Int64Array challenge_points] in
  exists ys ps t1 t2,
    y_values = Ok ys /\ y_values_points = Ok ps
    /\ py_model (NdArray 0) h
       = (Ok (NdArray 3), h ++ [Float64Array t1; Float64Array ys])
    /\ py_model (NdArray 1) (h ++ [Float64Array t1; Float64Array ys])
       = (Ok (NdArray 5),
          h ++ [Float64Array t1; Float64Array ys; Float64Array t2; Float64Array ps]).
Proof.
  cbv zeta. eexists. eexists. eexists. eexists.
  split; [apply b64_model_nd_unfold|].
  split; [apply b64_model_nd_unfold|].
  split; rewrite py_model_array; reflexivity.
Qed.

(** C9, as stated, fails on a Python [int]: [cube_lifetime(2**1024)] raises
    [OverflowError] at [m * x], so the call does not return for every real
    number it can be given. *)
Lemma model_raises_on_large_int :
  py_model (Scalar (PyInt (2 ^ 1024))) [] = (Raise OverflowError, [])
  /\ ~ (forall (x : pynum) (h : store),
          exists y h', py_model (Scalar x) h = (Ok y, h')).
Proof.
  assert (E : py_model (Scalar (PyInt (2 ^ 1024))) [] = (Raise OverflowError, [])).
  { rewrite py_model_int.
    replace (Z.abs (2 ^ 1024) <? int_overflow_bound)%Z with false
      by (vm_compute; reflexivity).
    reflexivity. }
  split; [exact E|].
  intros Hall.
  destruct (Hall (PyInt (2 ^ 1024)) []) as (y & h' & E').
  rewrite E in E'. discriminate E'.
Qed.

(** C9, amended. With the default calibration points the divisor
    [c2 - c1] is 70, not zero, so the [ZeroDivisionError] of the division is
    out of reach for every input, and the call has no side effects: it
    changes no object that exists, a scalar call allocates nothing and an
    array call returns a new array.  The call returns for every binary64
    input, a [float] (NaN and the infinities included) or an [int64] or
    [float64] array, and for every Python [int] whose magnitude is below
    [2^1024 - 2^970]; for an [int] of larger magnitude it raises
    [OverflowError] at [m * x], so it is not total over all real-number
    input. *)
Theorem model_total :
  py_sub (PyInt 80) (PyInt 10) = Ok (PyInt 70)
  /\ py_truediv (PyInt 960) (PyInt 70) = Ok (slope (T:=float))
  /\ (forall (x : float) (h : store),
        py_model (Scalar (PyFloat x)) h
        = (Ok (Scalar (PyFloat (slope * x + intercept))), h)
        /\ model x = Ok (slope * x + intercept)%float)
  /\ (forall (n : Z) (h : store),
        py_model (Scalar (PyInt n)) h
        = if (Z.abs n <? 2 ^ 1024 - 2 ^ 970)%Z
          then (Ok (Scalar (PyFloat (slope * float_of_int n + intercept))), h)
          else (Raise OverflowError, h))
  /\ (forall (r : nat) (a : ndarray) (h : store),
        nth_error h r = Some a ->
        exists tmp ys,
          model_nd (as_float64 a) = Ok ys
          /\ List.length ys = List.length (as_float64 a)
          /\ py_model (NdArray r) h
             = (Ok (NdArray (S (List.length h))),
                h ++ [Float64Array tmp; Float64Array ys]))
  /\ (forall (x : pyobj) (h : store),
        fst (py_model x h) <> Raise ZeroDivisionError)
  /\ (forall (x : pyobj) (e1 e2 c1 c2 : pynum) (h : store),
        exists l, snd (py_cube_lifetime x e1 e2 c1 c2 h) = h ++ l
                  /\ (forall v, x = Scalar v -> l = [])).
Proof.
  split; [reflexivity|].
  split; [vm_compute; reflexivity|].
  split; [intros x h; split; [apply py_model_float|apply b64_model_unfold]|].
  split; [intros n h; apply py_model_int|].
  split.
  { intros r a h Hr. eexists. eexists.
    split; [apply b64_model_nd_unfold|].
    split; [apply length_map|].
    rewrite py_model_array.
    rewrite (nth_error_nth h r (Float64Array []) Hr). reflexivity. }
  split; [|exact py_cube_lifetime_frame].
  intros [[n|x]|r] h.
  - rewrite py_model_int.
    destruct (Z.abs n <? int_overflow_bound)%Z; cbn [fst]; discriminate.
  - rewrite py_model_float. cbn [fst]. discriminate.
  - rewrite py_model_array. cbn [fst]. discriminate.
Qed.

(** * Further properties of the code *)

(** ** The order of binary64 numbers *)


Section Order.
Local Open Scope Z_scope.

Lemma SFcompare_antisym (a b : spec_float) :
  SFcompare b a = option_map CompOpp (SFcompare a b).
Proof.
  destruct a as [[]|[]| |[] m1 e1], b as [[]|[]| |[] m2 e2]; try reflexivity;
    cbn [SFcompare option_map];
    rewrite (Z.compare_antisym e1 e2);
    destruct (e1 ?= e2) eqn:E; cbn [CompOpp]; try reflexivity;
    fold (Pos.compare m1 m2); fold (Pos.compare m2 m1);
    rewrite (Pos.compare_antisym m1 m2); try reflexivity.
Qed.

Lemma SFltb_negb_leb (a b : spec_float) :
  a <> S754_nan -> b <> S754_nan -> SFltb a b = negb (SFleb b a).
Proof.
  intros Ha Hb. unfold SFltb, SFleb. rewrite (SFcompare_antisym a b).
  destruct (SFcompare a b) as [[]|] eqn:E; try reflexivity.
  exfalso. destruct a as [[]|[]| |[] ? ?], b as [[]|[]| |[] ? ?];
    try contradiction; try discriminate E.
Qed.

Lemma ival_bound (x : spec_float) :
  valid_binary x = true -> - 2 ^ 2100 < ival x < 2 ^ 2100.
Proof.
  intros V. assert (P : 0 < 2 ^ 2100) by (apply pow2_pos; lia).
  destruct x as [s|s| |s m e]; cbn [ival]; try lia.
  destruct (valid_finite _ _ _ V) as [C He].
  cbn [SpecFloat.valid_binary] in V. unfold bounded in V.
  apply andb_true_iff in V. destruct V as [_ Hmax]. apply Z.leb_le in Hmax.
  change (emax - prec) with 971 in Hmax.
  destruct (canonical_bounds m e C) as (_ & Hm & _).
  pose proof (ival_pos m e He) as Hv.
  assert (Zpos m * 2 ^ (e + 1074) < 2 ^ 2100).
  { assert (2 ^ (e + 1074) <= 2 ^ 2045) by (apply pow2_le; lia).
    assert (0 < 2 ^ (e + 1074)) by (apply pow2_pos; lia).
    assert (Zpos m * 2 ^ (e + 1074) < 2 ^ 53 * 2 ^ (e + 1074))
      by (apply Z.mul_lt_mono_pos_r; lia).
    assert (2 ^ 53 * 2 ^ (e + 1074) <= 2 ^ 53 * 2 ^ 2045)
      by (apply Z.mul_le_mono_nonneg_l; lia).
    replace (2 ^ 2100) with (2 ^ 53 * 2 ^ 2045 * 2 ^ 2).
    2:{ rewrite <- !Z.pow_add_r by lia. reflexivity. }
    change (2 ^ 2) with 4. 
    assert (0 < 2 ^ 53 * 2 ^ 2045) by (apply Z.mul_pos_pos; apply pow2_pos; lia).
    lia. }
  destruct s; cbn [cond_Zopp]; lia.
Qed.

Lemma ival_SFleb (x1 x2 : spec_float) :
  valid_binary x1 = true -> valid_binary x2 = true ->
  is_finite_SF x1 = true -> is_finite_SF x2 = true ->
  ival x1 <= ival x2 -> SFleb x1 x2 = true.
Proof.
  intros V1 V2 F1 F2 H.
  destruct x1 as [s1| | |s1 m1 e1], x2 as [s2| | |s2 m2 e2];
    try (cbn in F1; discriminate F1); try (cbn in F2; discriminate F2);
    cbn [ival] in H.
  - reflexivity.
  - destruct (valid_finite _ _ _ V2) as [_ He]. pose proof (ival_pos m2 e2 He).
    destruct s2; [cbn [cond_Zopp] in H; lia|reflexivity].
  - destruct (valid_finite _ _ _ V1) as [_ He]. pose proof (ival_pos m1 e1 He).
    destruct s1; [reflexivity|cbn [cond_Zopp] in H; lia].
  - destruct (valid_finite _ _ _ V1) as [C1 He1].
    destruct (valid_finite _ _ _ V2) as [C2 He2].
    pose proof (ival_pos m1 e1 He1). pose proof (ival_pos m2 e2 He2).
    destruct s1, s2; cbn [cond_Zopp] in H; try lia.
    + apply SFleb_neg_lex.
      apply (canonical_lex (-1074) ltac:(lia) m2 m1 e2 e1 C2 C1). unfold units.
      replace (e2 - -1074) with (e2 + 1074) by lia.
      replace (e1 - -1074) with (e1 + 1074) by lia. lia.
    + reflexivity.
    + apply SFleb_pos_lex.
      apply (canonical_lex (-1074) ltac:(lia) m1 m2 e1 e2 C1 C2). unfold units.
      replace (e2 - -1074) with (e2 + 1074) by lia.
      replace (e1 - -1074) with (e1 + 1074) by lia. lia.
Qed.

Lemma SFleb_key (a b : spec_float) :
  valid_binary a = true -> valid_binary b = true ->
  a <> S754_nan -> b <> S754_nan ->
  (SFleb a b = true <-> key a <= key b).
Proof.
  intros Va Vb Na Nb.
  pose proof (ival_bound a Va) as Ba. pose proof (ival_bound b Vb) as Bb.
  assert (P : 0 < 2 ^ 2100) by (apply pow2_pos; lia).
  destruct (is_finite_SF a) eqn:Fa, (is_finite_SF b) eqn:Fb.
  - replace (key a) with (ival a) by (destruct a as [|[]| |]; try discriminate Fa; reflexivity).
    replace (key b) with (ival b) by (destruct b as [|[]| |]; try discriminate Fb; reflexivity).
    split; [apply SFleb_ival; assumption|apply ival_SFleb; assumption].
  - replace (key a) with (ival a) by (destruct a as [|[]| |]; try discriminate Fa; reflexivity).
    destruct b as [|[]| |]; try discriminate Fb; try contradiction; cbn [key].
    + split; [|lia]. destruct a as [[]|[]| |[] ? ?]; discriminate.
    + split; [lia|]. intros _. apply SFleb_pinf_r. exact Na.
  - replace (key b) with (ival b) by (destruct b as [|[]| |]; try discriminate Fb; reflexivity).
    destruct a as [|[]| |]; try discriminate Fa; try contradiction; cbn [key].
    + split; [lia|]. intros _. apply SFleb_ninf_l. exact Nb.
    + split; [|lia]. destruct b as [[]|[]| |[] ? ?]; discriminate.
  - destruct a as [|[]| |]; try discriminate Fa; try contradiction;
    destruct b as [|[]| |]; try discriminate Fb; try contradiction; cbn [key];
      split; try reflexivity; try lia; try discriminate.
Qed.

Lemma SFltb_key (a b : spec_float) :
  valid_binary a = true -> valid_binary b = true ->
  a <> S754_nan -> b <> S754_nan ->
  (SFltb a b = true <-> key a < key b).
Proof.
  intros Va Vb Na Nb. rewrite SFltb_negb_leb by assumption.
  pose proof (SFleb_key b a Vb Va Nb Na) as H.
  destruct (SFleb b a); cbn [negb]; split; intros X; try discriminate; try reflexivity.
  - assert (key b <= key a) by (apply H; reflexivity). lia.
  - destruct (Z.le_gt_cases (key b) (key a)) as [L|L]; [|lia].
    apply H in L. discriminate L.
Qed.

Lemma SFcompare_some (a b : spec_float) :
  a <> S754_nan -> b <> S754_nan -> SFcompare a b <> None.
Proof.
  intros Ha Hb. destruct a as [[]|[]| |[] ? ?], b as [[]|[]| |[] ? ?];
    try contradiction; discriminate.
Qed.

Lemma SFeqb_key (a b : spec_float) :
  valid_binary a = true -> valid_binary b = true ->
  a <> S754_nan -> b <> S754_nan ->
  (SFeqb a b = true <-> key a = key b).
Proof.
  intros Va Vb Na Nb.
  pose proof (SFleb_key a b Va Vb Na Nb) as H1.
  pose proof (SFleb_key b a Vb Va Nb Na) as H2.
  pose proof (SFcompare_some a b Na Nb) as Hs.
  unfold SFleb in H1, H2. unfold SFeqb. rewrite (SFcompare_antisym a b) in H2.
  destruct (SFcompare a b) as [[]|]; [| | |contradiction];
    cbn [option_map CompOpp] in *; split; intros X;
    try reflexivity; try discriminate X.
  - assert (key a <= key b) by (apply H1; reflexivity).
    assert (key b <= key a) by (apply H2; reflexivity). lia.
  - assert (L : key b <= key a) by lia. apply H2 in L. discriminate L.
  - assert (L : key a <= key b) by lia. apply H1 in L. discriminate L.
Qed.
End Order.

(** ** When the division raises *)


Section ZeroDivision.
Local Open Scope Z_scope.

Lemma rv_pos (k : positive) : 0 < rv (-1074) k.
Proof.
  unfold rv. pose proof (nshift_eq (-1074) k) as En.
  pose proof (nshift_nonneg (-1074) ltac:(lia) k) as Hn.
  set (n := nshift (-1074) k) in *.
  pose proof (digits2_bounds k) as [Hlo _].
  set (d := Zpos (digits2_pos k)) in *.
  assert (HP : 0 < 2 ^ n) by (apply pow2_pos; exact Hn).
  apply Z.mul_pos_pos; [|exact HP].
  destruct (Z.eq_dec n 0) as [E0|Hne].
  - rewrite E0, rne_0. lia.
  - assert (Hnd : n = d - 53) by lia.
    assert (X : rne (2 ^ 52 * 2 ^ n) n = 2 ^ 52) by (apply rne_exact; lia).
    assert (rne (2 ^ 52 * 2 ^ n) n <= rne (Zpos k) n).
    { apply rne_mono; [lia| |lia].
      rewrite <- Z.pow_add_r by lia. replace (52 + n) with (d - 1) by lia. exact Hlo. }
    rewrite X in H. assert (0 < 2 ^ 52) by (apply pow2_pos; lia). lia.
Qed.

Lemma RN_zero_iff (K : Z) : is_zero_SF (RN (-1074) K) = true <-> K = 0.
Proof.
  split.
  - intros H. destruct K as [|k|k]; [reflexivity| |]; exfalso; cbn [RN] in H.
    + destruct (round_pos_spec (-1074) ltac:(lia) false k)
        as [[V _]|(m & e & _ & _ & E)].
      * pose proof (rv_pos k). lia.
      * rewrite E in H. destruct (e <=? 971); discriminate H.
    + destruct (round_pos_spec (-1074) ltac:(lia) true k)
        as [[V _]|(m & e & _ & _ & E)].
      * pose proof (rv_pos k). lia.
      * rewrite E in H. destruct (e <=? 971); discriminate H.
  - intros ->. reflexivity.
Qed.

Lemma SFsub_finite_units (s1 s2 : bool) (m1 m2 : positive) (e1 e2 : Z) :
  -1074 <= e1 -> -1074 <= e2 ->
  SFsub prec emax (S754_finite s1 m1 e1) (S754_finite s2 m2 e2)
  = RN (-1074) (ival (S754_finite s1 m1 e1) - ival (S754_finite s2 m2 e2)).
Proof.
  intros H1 H2. cbn [SFsub]. set (ez := Z.min e1 e2).
  rewrite binary_normalize_units by (unfold ez; lia).
  f_equal. rewrite Z.mul_sub_distr_r. cbn [ival].
  rewrite !shl_align_fst by (unfold ez; lia).
  assert (E1 : Zpos m1 * 2 ^ (e1 - ez) * 2 ^ (ez + 1074) = Zpos m1 * 2 ^ (e1 + 1074)).
  { rewrite <- Z.mul_assoc, <- Z.pow_add_r by (unfold ez; lia).
    f_equal. f_equal. lia. }
  assert (E2 : Zpos m2 * 2 ^ (e2 - ez) * 2 ^ (ez + 1074) = Zpos m2 * 2 ^ (e2 + 1074)).
  { rewrite <- Z.mul_assoc, <- Z.pow_add_r by (unfold ez; lia).
    f_equal. f_equal. lia. }
  destruct s1, s2; cbn [cond_Zopp]; rewrite ?Z.mul_opp_l, E1, E2; reflexivity.
Qed.

Lemma SFsub_zero_iff (x y : spec_float) :
  valid_binary x = true -> valid_binary y = true ->
  (is_zero_SF (SFsub prec emax x y) = true
   <-> is_finite_SF x = true /\ is_finite_SF y = true /\ ival x = ival y).
Proof.
  intros Vx Vy.
  destruct x as [sx|sx| |sx mx ex], y as [sy|sy| |sy my ey];
    try (split; [intros H; discriminate H|intros (H1 & H2 & _); try discriminate H1; discriminate H2]).
  - split; [intros _; repeat split|intros _].
    destruct sx, sy; reflexivity.
  - destruct (valid_finite _ _ _ Vy) as [_ He]. pose proof (ival_pos my ey He).
    cbn [SFsub is_zero_SF]. split; [discriminate|].
    intros (_ & _ & E). cbn [ival] in E. destruct sy; cbn [cond_Zopp] in E; lia.
  - destruct sx, sy; cbn; split; try discriminate; intros (H1 & _); discriminate H1.
  - destruct (valid_finite _ _ _ Vx) as [_ He]. pose proof (ival_pos mx ex He).
    cbn [SFsub is_zero_SF]. split; [discriminate|].
    intros (_ & _ & E). cbn [ival] in E. destruct sx; cbn [cond_Zopp] in E; lia.
  - destruct (valid_finite _ _ _ Vx) as [_ Hex].
    destruct (valid_finite _ _ _ Vy) as [_ Hey].
    rewrite SFsub_finite_units by assumption. rewrite RN_zero_iff.
    split; [intros E; repeat split; lia|intros (_ & _ & E); lia].
Qed.

Lemma SFeqb_zero (z : spec_float) : SFeqb z (S754_zero false) = is_zero_SF z.
Proof. destruct z as [[]|[]| |[] ? ?]; reflexivity. Qed.

Lemma finite_not_nan (x : spec_float) : is_finite_SF x = true -> x <> S754_nan.
Proof. destruct x; try discriminate; intros _; discriminate. Qed.

Lemma finite_key (x : spec_float) : is_finite_SF x = true -> key x = ival x.
Proof. destruct x as [|[]| |]; try discriminate; reflexivity. Qed.

Lemma SFeqb_finite (x y : spec_float) :
  SFeqb x y = true -> is_finite_SF x = is_finite_SF y.
Proof. destruct x as [[]|[]| |[] ? ?], y as [[]|[]| |[] ? ?]; try discriminate; reflexivity. Qed.

(** [c2 - c1 == 0] exactly when both are finite and [c1 == c2] *)
Lemma b64_sub_is_zero (c1 c2 : float) :
  PrimFloat.eqb (c2 - c1)%float 0%float = true
  <-> b64_finite c1 = true /\ b64_finite c2 = true /\ PrimFloat.eqb c1 c2 = true.
Proof.
  rewrite !FloatAxioms.eqb_spec, FloatAxioms.sub_spec. change (Prim2SF 0%float) with (S754_zero false).
  rewrite SFeqb_zero. unfold b64_finite.
  pose proof (Prim2SF_valid c1) as V1. pose proof (Prim2SF_valid c2) as V2.
  rewrite (SFsub_zero_iff _ _ V2 V1).
  split.
  - intros (F2 & F1 & E). split; [exact F1|]. split; [exact F2|].
    apply SFeqb_key; try assumption; try (apply finite_not_nan; assumption).
    rewrite !finite_key by assumption. lia.
  - intros (F1 & F2 & E). split; [exact F2|]. split; [exact F1|].
    apply SFeqb_key in E; try assumption; try (apply finite_not_nan; assumption).
    rewrite !finite_key in E by assumption. lia.
Qed.
End ZeroDivision.

(** what a call that returns, returns *)
Lemma b64_cube_lifetime_value (x e1 e2 c1 c2 y : float) :
  cube_lifetime x e1 e2 c1 c2 = Ok y ->
  y = ((e2 - e1) / (c2 - c1) * x + (e1 - (e2 - e1) / (c2 - c1) * c1))%float.
Proof.
  unfold cube_lifetime, truediv. cbn [is_zero Binary64 sub quot mul add].
  destruct (PrimFloat.eqb (c2 - c1)%float 0%float); cbn [bind]; [discriminate|].
  intros H.
  apply (f_equal (fun r => match r with Ok v => v | Raise _ => y end)) in H.
  symmetry. exact H.
Qed.

(** X1. In binary64 [cube_lifetime] raises [ZeroDivisionError] exactly when
    both calibration inputs are finite and [c1 == c2], whatever [x], [e1] and
    [e2] are (an infinite or NaN calibration input never raises); in every
    other case it returns [m * x + b] with [m = (e2 - e1) / (c2 - c1)] and
    [b = e1 - m * c1]. *)
Theorem cube_lifetime_raises_iff (x e1 e2 c1 c2 : float) :
  (cube_lifetime x e1 e2 c1 c2 = Raise ZeroDivisionError
   <-> b64_finite c1 = true /\ b64_finite c2 = true /\ PrimFloat.eqb c1 c2 = true)
  /\ (cube_lifetime x e1 e2 c1 c2 <> Raise ZeroDivisionError ->
      cube_lifetime x e1 e2 c1 c2
      = Ok ((e2 - e1) / (c2 - c1) * x + (e1 - (e2 - e1) / (c2 - c1) * c1))%float).
Proof.
  pose proof (b64_sub_is_zero c1 c2) as Hz.
  unfold cube_lifetime, truediv. cbn [is_zero Binary64 sub quot mul add].
  destruct (PrimFloat.eqb (c2 - c1)%float 0%float); cbn [bind].
  - split; [|intros H; contradiction].
    split; [intros _; apply Hz; reflexivity|reflexivity].
  - split; [|reflexivity].
    split; [discriminate|]. intros H. apply Hz in H. discriminate H.
Qed.

(** ** Lines of either direction *)

Section AnySlope.
Local Open Scope Z_scope.
Variables (sM : bool) (mM : positive) (eM : Z).
Hypothesis VM : valid_binary (S754_finite sM mM eM) = true.

Lemma product_shift_nonneg (m : positive) (e : Z) :
  canonical_mantissa prec emax m e = true ->
  eM + e <= fexp prec emax (Zpos (digits2_pos (mM * m)) + (eM + e)).
Proof.
  intros C. destruct (valid_finite _ _ _ VM) as [CM HeM].
  destruct (canonical_bounds mM eM CM) as (_ & _ & HnM).
  destruct (canonical_bounds m e C) as (He & _ & Hn).
  rewrite fexp_eq.
  pose proof (digits2_bounds (mM * m)) as [_ Hhi].
  destruct (Z.eq_dec eM (-1074)) as [EM|NM]; [destruct (Z.eq_dec e (-1074)) as [Ex|Nx]|].
  - lia.
  - assert (H52 : 2 ^ 52 <= Zpos m) by (apply Hn; lia).
    assert (2 ^ 52 <= Zpos (mM * m)) by (rewrite Pos2Z.inj_mul; nia).
    destruct (Z.le_gt_cases 53 (Zpos (digits2_pos (mM * m)))) as [|Hlt]; [lia|exfalso].
    assert (2 ^ Zpos (digits2_pos (mM * m)) <= 2 ^ 52) by (apply pow2_le; lia).
    lia.
  - assert (H52 : 2 ^ 52 <= Zpos mM) by (apply HnM; lia).
    assert (2 ^ 52 <= Zpos (mM * m)) by (rewrite Pos2Z.inj_mul; nia).
    destruct (Z.le_gt_cases 53 (Zpos (digits2_pos (mM * m)))) as [|Hlt]; [lia|exfalso].
    assert (2 ^ Zpos (digits2_pos (mM * m)) <= 2 ^ 52) by (apply pow2_le; lia).
    lia.
Qed.

Lemma SFmul_units_any (x : spec_float) :
  valid_binary x = true -> is_finite_SF x = true ->
  nz (SFmul prec emax (S754_finite sM mM eM) x)
  = nz (RN (slope_unit eM) (cond_Zopp sM (slope_scale mM eM) * ival x)).
Proof.
  intros V F. destruct x as [s| | |s m e]; try discriminate F.
  - cbn [SFmul ival nz]. rewrite Z.mul_0_r. reflexivity.
  - destruct (valid_finite _ _ _ V) as [C He].
    destruct (valid_finite _ _ _ VM) as [_ HeM].
    f_equal. cbn [SFmul ival].
    pose proof (slope_scale_pos mM eM) as HcM.
    pose proof (ival_pos m e He) as Hv.
    set (j := eM + e - slope_unit eM).
    assert (Hj : 0 <= j) by (unfold j, slope_unit; lia).
    assert (Ek : slope_scale mM eM * (Zpos m * 2 ^ (e + 1074))
                 = Zpos (mM * m) * 2 ^ j).
    { unfold slope_scale, j, slope_unit. rewrite Pos2Z.inj_mul.
      replace (eM + e - (Z.min eM 0 - 1074))
        with ((eM - Z.min eM 0) + (e + 1074)) by lia.
      rewrite (Z.pow_add_r 2 (eM - Z.min eM 0) (e + 1074)) by lia. ring. }
    pose proof (product_shift_nonneg m e C) as Hd.
    replace (slope_unit eM) with (eM + e - j) by (unfold j; lia).
    assert (Hpos : 0 < Zpos (mM * m) * 2 ^ j)
      by (apply Z.mul_pos_pos; [lia|apply pow2_pos; exact Hj]).
    assert (EK : cond_Zopp sM (slope_scale mM eM) * cond_Zopp s (Zpos m * 2 ^ (e + 1074))
                 = cond_Zopp (xorb sM s) (Zpos (mM * m) * 2 ^ j)).
    { rewrite <- Ek. destruct sM, s; cbn [cond_Zopp xorb]; ring. }
    rewrite EK.
    destruct (Zpos (mM * m) * 2 ^ j) as [|k|k] eqn:E'; try lia.
    destruct (xorb sM s); cbn [cond_Zopp Z.opp RN]; symmetry;
      (apply bra_scaled; [exact Hj|lia|exact Hd]).
Qed.

Lemma SFmul_any_not_nan (x : spec_float) :
  valid_binary x = true -> x <> S754_nan ->
  SFmul prec emax (S754_finite sM mM eM) x <> S754_nan.
Proof.
  intros V Hx. destruct x as [s|s| |s m e]; [discriminate|discriminate|contradiction|].
  apply (nz_not_nan _ _ (SFmul_units_any _ V eq_refl)).
  apply RN_not_nan. exact (slope_unit_le mM eM).
Qed.
End AnySlope.

Section SlopeSign.
Local Open Scope Z_scope.
Variables (mM : positive) (eM : Z).

Lemma SFmul_mono_pos (x1 x2 : spec_float) :
  valid_binary (S754_finite false mM eM) = true ->
  valid_binary x1 = true -> valid_binary x2 = true ->
  SFleb x1 x2 = true ->
  SFleb (SFmul prec emax (S754_finite false mM eM) x1)
        (SFmul prec emax (S754_finite false mM eM) x2) = true.
Proof.
  intros VM V1 V2 H.
  destruct (SFleb_not_nan _ _ H) as [N1 N2].
  destruct (SFleb_kinds _ _ H) as [->|[->|[F1 F2]]].
  - apply SFleb_ninf_l. apply SFmul_any_not_nan; assumption.
  - apply SFleb_pinf_r. apply SFmul_any_not_nan; assumption.
  - rewrite SFleb_nz, (SFmul_units_any false mM eM VM x1 V1 F1),
      (SFmul_units_any false mM eM VM x2 V2 F2), <- SFleb_nz.
    apply RN_mono; [exact (slope_unit_le mM eM)|]. cbn [cond_Zopp].
    apply Z.mul_le_mono_nonneg_l; [apply Z.lt_le_incl, slope_scale_pos|].
    apply SFleb_ival; assumption.
Qed.

Lemma SFmul_mono_neg (x1 x2 : spec_float) :
  valid_binary (S754_finite true mM eM) = true ->
  valid_binary x1 = true -> valid_binary x2 = true ->
  SFleb x1 x2 = true ->
  SFleb (SFmul prec emax (S754_finite true mM eM) x2)
        (SFmul prec emax (S754_finite true mM eM) x1) = true.
Proof.
  intros VM V1 V2 H.
  destruct (SFleb_not_nan _ _ H) as [N1 N2].
  destruct (SFleb_kinds _ _ H) as [->|[->|[F1 F2]]].
  - apply SFleb_pinf_r. apply SFmul_any_not_nan; assumption.
  - apply SFleb_ninf_l. apply SFmul_any_not_nan; assumption.
  - rewrite SFleb_nz, (SFmul_units_any true mM eM VM x1 V1 F1),
      (SFmul_units_any true mM eM VM x2 V2 F2), <- SFleb_nz.
    apply RN_mono; [exact (slope_unit_le mM eM)|]. cbn [cond_Zopp].
    pose proof (slope_scale_pos mM eM).
    pose proof (SFleb_ival x1 x2 V1 V2 F1 F2 H). nia.
Qed.
End SlopeSign.

Section AnyIntercept.
Local Open Scope Z_scope.

Lemma SFadd_zero_r (p : spec_float) (s : bool) :
  nz (SFadd prec emax p (S754_zero s)) = nz p.
Proof. destruct p as [[]|[]| |[] ? ?], s; reflexivity. Qed.

Lemma SFadd_mono_any (b p1 p2 : spec_float) :
  valid_binary b = true -> is_finite_SF b = true ->
  valid_binary p1 = true -> valid_binary p2 = true ->
  SFleb p1 p2 = true ->
  SFleb (SFadd prec emax p1 b) (SFadd prec emax p2 b) = true.
Proof.
  intros Vb Fb V1 V2 H. destruct b as [s| | |s m e]; try discriminate Fb.
  - rewrite SFleb_nz, !SFadd_zero_r, <- SFleb_nz. exact H.
  - apply SFadd_mono; assumption.
Qed.
End AnyIntercept.

(** a binary64 line with a finite slope and intercept: the sign of the
    slope decides the direction *)
Lemma b64_line_direction (m b x1 x2 : float) :
  b64_finite m = true -> b64_finite b = true ->
  PrimFloat.leb x1 x2 = true ->
  (PrimFloat.ltb 0 m = true ->
   PrimFloat.leb (m * x1 + b)%float (m * x2 + b)%float = true)
  /\ (PrimFloat.ltb m 0 = true ->
      PrimFloat.leb (m * x2 + b)%float (m * x1 + b)%float = true).
Proof.
  intros Fm Fb H. unfold b64_finite in *.
  rewrite leb_spec in H. rewrite !ltb_spec, !leb_spec, !add_spec, !mul_spec.
  change (Prim2SF 0%float) with (S754_zero false).
  pose proof (Prim2SF_valid m) as Vm. pose proof (Prim2SF_valid b) as Vb.
  pose proof (Prim2SF_valid x1) as V1. pose proof (Prim2SF_valid x2) as V2.
  pose proof (Prim2SF_valid (m * x1)%float) as Vp1.
  pose proof (Prim2SF_valid (m * x2)%float) as Vp2.
  rewrite !mul_spec in Vp1, Vp2.
  destruct (Prim2SF m) as [sm| | |sm mM eM]; try discriminate Fm.
  - split; intros X; destruct sm; discriminate X.
  - split; intros X.
    + destruct sm; [discriminate X|].
      apply SFadd_mono_any; try assumption. apply SFmul_mono_pos; assumption.
    + destruct sm; [|discriminate X].
      apply SFadd_mono_any; try assumption. apply SFmul_mono_neg; assumption.
Qed.

Lemma SFeqb_refl (a : spec_float) : SFeqb a a = negb (is_nan_SF a).
Proof.
  destruct a as [[]|[]| |[] m e]; try reflexivity;
    unfold SFeqb, SFcompare; rewrite Z.compare_refl;
    fold (Pos.compare m m); rewrite Pos.compare_refl; reflexivity.
Qed.

Lemma SFleb_refl (a : spec_float) : SFleb a a = negb (is_nan_SF a).
Proof.
  destruct a as [[]|[]| |[] m e]; try reflexivity;
    unfold SFleb, SFcompare; rewrite Z.compare_refl;
    fold (Pos.compare m m); rewrite Pos.compare_refl; reflexivity.
Qed.

Lemma b64_leb_refl (x : float) : PrimFloat.leb x x = PrimFloat.eqb x x.
Proof. rewrite leb_spec, FloatAxioms.eqb_spec, SFleb_refl, SFeqb_refl. reflexivity. Qed.

(** X3. For any calibration whose slope [m = (e2 - e1) / (c2 - c1)] and
    intercept [e1 - m * c1] come out finite, the binary64 results follow the
    sign of the slope: for [x1 <= x2] the outputs satisfy [y1 <= y2] when
    [m > 0] and [y2 <= y1] when [m < 0]. *)
Theorem cube_lifetime_direction (e1 e2 c1 c2 x1 x2 y1 y2 : float) :
  b64_finite ((e2 - e1) / (c2 - c1))%float = true ->
  b64_finite (e1 - (e2 - e1) / (c2 - c1) * c1)%float = true ->
  PrimFloat.leb x1 x2 = true ->
  cube_lifetime x1 e1 e2 c1 c2 = Ok y1 ->
  cube_lifetime x2 e1 e2 c1 c2 = Ok y2 ->
  (PrimFloat.ltb 0 ((e2 - e1) / (c2 - c1))%float = true -> PrimFloat.leb y1 y2 = true)
  /\ (PrimFloat.ltb ((e2 - e1) / (c2 - c1))%float 0 = true -> PrimFloat.leb y2 y1 = true).
Proof.
  intros Fm Fb Hx H1 H2.
  pose proof (b64_line_direction _ _ x1 x2 Fm Fb Hx) as [Hp Hn].
  apply b64_cube_lifetime_value in H1. apply b64_cube_lifetime_value in H2.
  subst y1 y2. split; assumption.
Qed.

Lemma cube_lifetime_direction_witness :
  exists y1 y2,
    cube_lifetime 10%float 0%float 960%float 10%float 80%float = Ok y1
    /\ cube_lifetime 80%float 0%float 960%float 10%float 80%float = Ok y2
    /\ PrimFloat.leb y1 y2 = true.
Proof.
  exists 0%float, 960%float.
  split; [vm_compute; reflexivity|]. split; [vm_compute; reflexivity|].
  refine (proj1 (cube_lifetime_direction 0 960 10 80 10 80 0 960 _ _ _ _ _) _);
    vm_compute; reflexivity.
Defined.

(** X4. The model never raises and its result is NaN exactly when the
    input is NaN: every other input, the infinities included, gives a
    number. *)
Theorem model_nan_iff (x : float) :
  exists y, model x = Ok y
            /\ (PrimFloat.eqb y y = false <-> PrimFloat.eqb x x = false).
Proof.
  eexists. split; [apply b64_model_unfold|].
  split.
  - intros Hy. destruct (PrimFloat.eqb x x) eqn:Ex; [|reflexivity].
    rewrite <- b64_leb_refl in Ex. apply b64_model_monotone in Ex.
    rewrite b64_leb_refl in Ex. congruence.
  - intros Hx. rewrite FloatAxioms.eqb_spec, SFeqb_refl in Hx.
    rewrite FloatAxioms.eqb_spec, SFeqb_refl, add_spec, mul_spec.
    destruct (Prim2SF x); try discriminate Hx.
    destruct (Prim2SF slope) as [[]|[]| |[] ? ?]; reflexivity.
Qed.

(** X5. For every binary64 input of the display domain, [10 <= x <= 80],
    the model's output lies between the outputs at the ends:
    [0 <= model(x) <= 960], the first and the last tick. *)
Theorem model_range (x : float) :
  PrimFloat.leb 10 x = true -> PrimFloat.leb x 80 = true ->
  exists y, model x = Ok y
            /\ PrimFloat.leb 0 y = true /\ PrimFloat.leb y 960 = true.
Proof.
  intros Hlo Hhi. eexists. split; [apply b64_model_unfold|].
  pose proof (b64_model_monotone 10 x Hlo) as L.
  pose proof (b64_model_monotone x 80 Hhi) as U.
  replace (slope * 10 + intercept)%float with 0%float in L by (vm_compute; reflexivity).
  replace (slope * 80 + intercept)%float with 960%float in U by (vm_compute; reflexivity).
  split; assumption.
Qed.

Lemma model_range_witness :
  exists y, model 45%float = Ok y
            /\ PrimFloat.leb 0 y = true /\ PrimFloat.leb y 960 = true.
Proof.
  apply (model_range 45%float); vm_compute; reflexivity.
Defined.

Lemma SFadd_cancel (p : spec_float) :
  is_finite_SF p = true ->
  SFadd prec emax p (SFsub prec emax (S754_zero false) p) = S754_zero false.
Proof.
  intros F. destruct p as [[]| | |s m e]; try discriminate F; try reflexivity.
  cbn [SFsub SFadd]. rewrite Z.min_id.
  unfold shl_align. rewrite Z.sub_diag. cbn [fst].
  destruct s; cbn [negb cond_Zopp]; rewrite ?Z.add_opp_diag_l, ?Z.add_opp_diag_r;
    reflexivity.
Qed.

(** X12. With [e1 = 0] (the default) the line goes through [(c1, 0)]
    exactly in binary64, for every [e2], [c1] and [c2] for which the call
    returns and [m * c1] is finite: the intercept is then the exact negation
    of [m * c1], and their sum is [+0.0]. *)
Theorem cube_lifetime_zero_at_c1 (e2 c1 c2 y : float) :
  b64_finite ((e2 - 0) / (c2 - c1) * c1)%float = true ->
  cube_lifetime c1 0%float e2 c1 c2 = Ok y ->
  y = 0%float.
Proof.
  intros F H. apply b64_cube_lifetime_value in H.
  subst y. apply Prim2SF_inj.
  rewrite add_spec, sub_spec. change (Prim2SF 0%float) with (S754_zero false).
  apply SFadd_cancel. exact F.
Qed.

Lemma cube_lifetime_zero_at_c1_witness :
  exists y, cube_lifetime 10%float 0%float 960%float 10%float 80%float = Ok y
            /\ y = 0%float.
Proof.
  exists 0%float. split; [vm_compute; reflexivity|].
  refine (cube_lifetime_zero_at_c1 960 10 80 0 _ _); vm_compute; reflexivity.
Defined.

(** ** The line in exact arithmetic *)

Section ExactLine.
Local Open Scope Qc_scope.

Lemma Qc_sign_of_product_pos (m d : Qc) : 0 < d -> 0 < m * d -> 0 < m.
Proof.
  intros Hd Hmd. destruct (Qclt_le_dec 0 m) as [H|H]; [exact H|exfalso].
  apply (Qcmult_le_compat_r m 0 d) in H; [|apply Qclt_le_weak; exact Hd].
  rewrite Qcmult_0_l in H. exact (Qclt_not_le _ _ Hmd H).
Qed.

Lemma Qc_sign_of_product_neg (m d : Qc) : 0 < d -> m * d < 0 -> m < 0.
Proof.
  intros Hd Hmd. destruct (Qclt_le_dec m 0) as [H|H]; [exact H|exfalso].
  apply (Qcmult_le_compat_r 0 m d) in H; [|apply Qclt_le_weak; exact Hd].
  rewrite Qcmult_0_l in H. exact (Qclt_not_le _ _ Hmd H).
Qed.

(** X6. In exact arithmetic, for [c1 < c2] and [x1 < x2] the call never
    raises and the sign of [e2 - e1] decides the direction: strictly
    increasing for [e1 < e2], strictly decreasing for [e2 < e1], constant
    [e1] for [e1 = e2]; the increments are proportional:
    [(y2 - y1) * (c2 - c1) = (e2 - e1) * (x2 - x1)]. *)
Theorem frac_cube_lifetime_direction (e1 e2 c1 c2 x1 x2 : Qc) :
  c1 < c2 -> x1 < x2 ->
  exists y1 y2,
    cube_lifetime x1 e1 e2 c1 c2 = Ok y1
    /\ cube_lifetime x2 e1 e2 c1 c2 = Ok y2
    /\ (e1 < e2 -> y1 < y2)
    /\ (e2 < e1 -> y2 < y1)
    /\ (e1 = e2 -> y1 = e1 /\ y2 = e1)
    /\ (y2 - y1) * (c2 - c1) = (e2 - e1) * (x2 - x1).
Proof.
  intros Hc Hx.
  assert (Hd : 0 < c2 - c1) by (apply (proj1 (Qclt_minus_iff c1 c2)); exact Hc).
  assert (Ht : 0 < x2 - x1) by (apply (proj1 (Qclt_minus_iff x1 x2)); exact Hx).
  assert (Hd0 : c2 - c1 <> 0).
  { intros E. rewrite E in Hd. exact (Qclt_not_eq _ _ Hd eq_refl). }
  unfold cube_lifetime. rewrite (frac_truediv_ok _ _ Hd0). cbn [bind sub mul add Fraction].
  set (m := (e2 - e1) / (c2 - c1)).
  assert (Em : m * (c2 - c1) = e2 - e1) by (unfold m; field; exact Hd0).
  assert (Ey : (m * x2 + (e1 - m * c1)) + - (m * x1 + (e1 - m * c1)) = m * (x2 - x1))
    by ring.
  do 2 eexists. split; [reflexivity|]. split; [reflexivity|].
  split; [|split; [|split]].
  - intros He. assert (Hm : 0 < m).
    { apply (Qc_sign_of_product_pos m (c2 - c1) Hd). rewrite Em.
      apply (proj1 (Qclt_minus_iff e1 e2)). exact He. }
    assert (L : 0 * (x2 - x1) < m * (x2 - x1))
      by (apply Qcmult_lt_compat_r; assumption).
    rewrite Qcmult_0_l in L.
    apply Qclt_minus_iff. rewrite Ey. exact L.
  - intros He. assert (Hm : m < 0).
    { apply (Qc_sign_of_product_neg m (c2 - c1) Hd). rewrite Em.
      apply Qclt_minus_iff. replace (0 + - (e2 - e1)) with (e1 + - e2) by ring.
      apply (proj1 (Qclt_minus_iff e2 e1)). exact He. }
    assert (L : m * (x2 - x1) < 0 * (x2 - x1))
      by (apply Qcmult_lt_compat_r; assumption).
    rewrite Qcmult_0_l in L. apply (proj1 (Qclt_minus_iff _ _)) in L.
    apply Qclt_minus_iff.
    replace (m * x1 + (e1 - m * c1) + - (m * x2 + (e1 - m * c1)))
      with (0 + - (m * (x2 - x1))) by ring.
    exact L.
  - intros ->. assert (E0 : m = 0) by (unfold m; field; exact Hd0).
    rewrite E0. split; ring.
  - replace ((m * x2 + (e1 - m * c1)) - (m * x1 + (e1 - m * c1)))
      with (m * (x2 - x1)) by ring.
    rewrite <- Em. ring.
Qed.

Lemma frac_cube_lifetime_direction_witness :
  exists y1 y2,
    cube_lifetime (Qc_of_int 10) (Qc_of_int 0) (Qc_of_int 960) (Qc_of_int 10) (Qc_of_int 80) = Ok y1
    /\ cube_lifetime (Qc_of_int 45) (Qc_of_int 0) (Qc_of_int 960) (Qc_of_int 10) (Qc_of_int 80) = Ok y2
    /\ (Qc_of_int 0 < Qc_of_int 960 -> y1 < y2)
    /\ (Qc_of_int 960 < Qc_of_int 0 -> y2 < y1)
    /\ (Qc_of_int 0 = Qc_of_int 960 -> y1 = Qc_of_int 0 /\ y2 = Qc_of_int 0)
    /\ (y2 - y1) * (Qc_of_int 80 - Qc_of_int 10)
       = (Qc_of_int 960 - Qc_of_int 0) * (Qc_of_int 45 - Qc_of_int 10).
Proof.
  apply (frac_cube_lifetime_direction (Qc_of_int 0) (Qc_of_int 960)
           (Qc_of_int 10) (Qc_of_int 80) (Qc_of_int 10) (Qc_of_int 45));
    reflexivity.
Defined.
End ExactLine.

(** ** Arrays and the annotation loop *)


(** X2. Called on a non-empty array, [cube_lifetime] gives what the scalar
    call gives on each element, in order, and raises when the scalar call
    does; on an empty array it still divides first, so it raises
    [ZeroDivisionError] when [c2 - c1 == 0] and returns an empty array
    otherwise.  The result has the length of the input. *)
Theorem cube_lifetime_nd_elementwise (T : Type) (N : PyNumber T)
  (x : T) (xs : list T) (e1 e2 c1 c2 : T) :
  cube_lifetime_nd (x :: xs) e1 e2 c1 c2
  = mapM (fun v => cube_lifetime v e1 e2 c1 c2) (x :: xs)
  /\ cube_lifetime_nd [] e1 e2 c1 c2
     = (if is_zero (sub c2 c1) then Raise ZeroDivisionError else Ok [])
  /\ (forall ys, cube_lifetime_nd xs e1 e2 c1 c2 = Ok ys ->
                 List.length ys = List.length xs).
Proof.
  unfold cube_lifetime_nd, cube_lifetime, truediv.
  destruct (is_zero (sub c2 c1)) eqn:Ez; cbn [bind].
  - split; [cbn [mapM bind]; reflexivity|]. split; [reflexivity|discriminate].
  - split.
    { generalize (x :: xs). intros l. induction l as [|a l IH]; [reflexivity|].
      cbn [map mapM bind].
      rewrite <- IH. cbn [bind]. reflexivity. }
    split; [reflexivity|].
    intros ys E. injection E as <-. rewrite !length_map. reflexivity.
Qed.

(** annotate_points *)
Lemma with_points_nil (ax : Axes) : with_points ax [] [] = ax.
Proof. destruct ax. unfold with_points. cbn. rewrite !app_nil_r. reflexivity. Qed.

Lemma annotate_points_spec (pts : list (Z * float)) (ax : Axes) :
  annotate_points ax pts
  = (ts <- mapM point_text pts ;; Ok (with_points ax ts (map point_marker pts))).
Proof.
  revert ax. induction pts as [|[x y] rest IH]; intros ax.
  - cbn [annotate_points mapM bind map]. rewrite with_points_nil. reflexivity.
  - cbn [annotate_points mapM map]. unfold point_text at 1. cbn [fst snd].
    destruct (py_int y) as [n|e]; cbn [bind]; [|reflexivity].
    rewrite IH. destruct (mapM point_text rest) as [ts|e]; cbn [bind]; [|reflexivity].
    f_equal. unfold with_points, plot, annotate, point_marker. cbn.
    rewrite <- !app_assoc. reflexivity.
Qed.

Lemma py_int_ok_iff (y : float) :
  (exists n, py_int y = Ok n) <-> b64_finite y = true.
Proof.
  unfold py_int, b64_finite, trunc_SF.
  destruct (Prim2SF y); cbn [is_finite_SF]; split; intros H;
    try reflexivity; try discriminate H;
    try (eexists; reflexivity); destruct H as [n H]; discriminate H.
Qed.

Lemma point_text_ok_iff (p : Z * float) :
  (exists t, point_text p = Ok t) <-> b64_finite (snd p) = true.
Proof.
  rewrite <- py_int_ok_iff. unfold point_text.
  destruct (py_int (snd p)) as [n|e]; cbn [bind]; split; intros [t H];
    try discriminate H; eexists; reflexivity.
Qed.

Lemma mapM_ok_iff {A B : Type} (f : A -> result B) (l : list A) :
  (exists bs, mapM f l = Ok bs) <-> Forall (fun a => exists b, f a = Ok b) l.
Proof.
  induction l as [|a l IH]; cbn [mapM].
  - split; [constructor|eexists; reflexivity].
  - split.
    + intros [bs H]. destruct (f a) as [b|e] eqn:Ea; cbn [bind] in H; [|discriminate H].
      destruct (mapM f l) as [bs'|e] eqn:El; cbn [bind] in H; [|discriminate H].
      constructor; [exists b; exact Ea|]. apply IH. eexists; reflexivity.
    + intros H. inversion H as [|? ? [b Hb] Hl]; subst.
      apply IH in Hl. destruct Hl as [bs Hbs]. rewrite Hb, Hbs. cbn [bind].
      eexists; reflexivity.
Qed.

Lemma mapM_length {A B : Type} (f : A -> result B) (l : list A) (bs : list B) :
  mapM f l = Ok bs -> List.length bs = List.length l.
Proof.
  revert bs. induction l as [|a l IH]; intros bs H; cbn [mapM] in H.
  - injection H as <-. reflexivity.
  - destruct (f a) as [b|e]; cbn [bind] in H; [|discriminate H].
    destruct (mapM f l) as [bs'|e]; cbn [bind] in H; [|discriminate H].
    injection H as <-. cbn. f_equal. apply IH. reflexivity.
Qed.

(** X7. The annotation loop succeeds exactly when every [y] is finite; it
    then appends one annotation per point to the texts and one red marker
    per point to the lines, in order, and leaves ticks, tick labels, limits,
    axis labels, title and legend as they were. *)
Theorem annotate_points_ok_iff (ax : Axes) (pts : list (Z * float)) :
  ((exists ax', annotate_points ax pts = Ok ax')
   <-> Forall (fun p => b64_finite (snd p) = true) pts)
  /\ (forall ax', annotate_points ax pts = Ok ax' ->
        exists ts,
          mapM point_text pts = Ok ts
          /\ List.length ts = List.length pts
          /\ texts ax' = texts ax ++ ts
          /\ lines ax' = lines ax ++ map point_marker pts
          /\ xticks ax' = xticks ax /\ yticks ax' = yticks ax
          /\ yticklabels ax' = yticklabels ax /\ ylim ax' = ylim ax
          /\ xlabel ax' = xlabel ax /\ ylabel ax' = ylabel ax
          /\ title ax' = title ax /\ legend ax' = legend ax).
Proof.
  rewrite annotate_points_spec. split.
  - split.
    + intros [ax' H]. destruct (mapM point_text pts) as [ts|e] eqn:E; [|discriminate H].
      assert (F : Forall (fun a => exists b, point_text a = Ok b) pts)
        by (apply mapM_ok_iff; exists ts; exact E).
      revert F. apply Forall_impl. intros p. apply point_text_ok_iff.
    + intros F.
      assert (F' : Forall (fun a => exists b, point_text a = Ok b) pts).
      { revert F. apply Forall_impl. intros p. apply point_text_ok_iff. }
      apply mapM_ok_iff in F'. destruct F' as [ts ->]. cbn [bind]. eexists; reflexivity.
  - intros ax' H. destruct (mapM point_text pts) as [ts|e] eqn:E; [|discriminate H].
    cbn [bind] in H. injection H as <-. exists ts.
    split; [reflexivity|]. split; [apply (mapM_length _ _ _ E)|].
    unfold with_points. cbn. repeat split; reflexivity.
Qed.

(** X8. When some [y] is not finite, the loop stops at the first such
    point: [int(y)] raises [ValueError] for NaN and [OverflowError] for an
    infinity, whatever comes after. *)
Theorem annotate_points_error (ax : Axes) (good rest : list (Z * float))
  (x : Z) (y : float) :
  Forall (fun p => b64_finite (snd p) = true) good ->
  b64_finite y = false ->
  annotate_points ax (good ++ (x, y) :: rest)
  = Raise (if PrimFloat.eqb y y then OverflowError else ValueError).
Proof.
  intros F Hy. rewrite annotate_points_spec.
  assert (E : mapM point_text (good ++ (x, y) :: rest)
              = Raise (if PrimFloat.eqb y y then OverflowError else ValueError)).
  { induction F as [|p good Hp F IH]; cbn [app mapM].
    - unfold point_text. cbn [fst snd]. unfold py_int.
      rewrite FloatAxioms.eqb_spec, SFeqb_refl.
      unfold b64_finite in Hy.
      destruct (Prim2SF y); try discriminate Hy; reflexivity.
    - apply point_text_ok_iff in Hp. destruct Hp as [t ->]. cbn [bind].
      rewrite IH. reflexivity. }
  rewrite E. reflexivity.
Qed.

Lemma annotate_points_error_witness :
  annotate_points new_axes ([(10%Z, 0%float)] ++ (15%Z, nan) :: [(20%Z, 137%float)])
  = Raise ValueError.
Proof.
  refine (annotate_points_error new_axes [(10%Z, 0%float)] [(20%Z, 137%float)]
            15%Z nan _ _).
  - repeat constructor.
  - vm_compute. reflexivity.
Defined.

(** ** [int], [max] and [linspace] *)

(** py_int truncates *)
Lemma two_pow_Q (k : Z) : (0 <= k)%Z -> ((2 # 1) ^ k == inject_Z (2 ^ k))%Q.
Proof. intros H. rewrite Zpower_Qpower by exact H. reflexivity. Qed.

Lemma shift_bounds (m : positive) (e : Z) :
  (inject_Z (Z.shiftl (Zpos m) e) <= inject_Z (Zpos m) * (2 # 1) ^ e
   /\ inject_Z (Zpos m) * (2 # 1) ^ e < inject_Z (Z.shiftl (Zpos m) e) + 1)%Q.
Proof.
  destruct (Z.le_gt_cases 0 e) as [He|He].
  - rewrite Z.shiftl_mul_pow2 by exact He.
    rewrite two_pow_Q by exact He. rewrite <- inject_Z_mult.
    split; [apply Qle_refl|].
    rewrite <- (inject_Z_plus _ 1). rewrite <- Zlt_Qlt. lia.
  - set (k := (- e)%Z). assert (Hk : (0 < k)%Z) by (unfold k; lia).
    replace e with (- k)%Z by (unfold k; lia).
    rewrite Z.shiftl_opp_r, Z.shiftr_div_pow2 by lia.
    rewrite Qpower_opp, two_pow_Q by lia.
    assert (HD : (0 < 2 ^ k)%Z) by (apply Z.pow_pos_nonneg; lia).
    assert (HDq : (0 < inject_Z (2 ^ k))%Q) by (rewrite <- (Zlt_Qlt 0); exact HD).
    pose proof (Z.div_mod (Zpos m) (2 ^ k) ltac:(lia)) as Edm.
    pose proof (Z.mod_pos_bound (Zpos m) (2 ^ k) HD) as Hr.
    split.
    + apply Qle_shift_div_l; [exact HDq|].
      rewrite <- inject_Z_mult, <- Zle_Qle. nia.
    + apply Qlt_shift_div_r; [exact HDq|].
      rewrite <- (inject_Z_plus _ 1), <- inject_Z_mult, <- Zlt_Qlt. nia.
Qed.


Lemma pos_value_Q (m : positive) (e : Z) : (0 < inject_Z (Zpos m) * (2 # 1) ^ e)%Q.
Proof.
  apply Qmult_lt_0_compat; [rewrite <- (Zlt_Qlt 0); lia|].
  apply Qpower_0_lt. reflexivity.
Qed.

(** X9. On a finite [y], [int(y)] is the integer part of [y]: for
    [y >= 0] it is the [n] with [n <= y < n + 1], for [y <= 0] the [n] with
    [n - 1 < y <= n].  The annotation of a non-negative value never exceeds
    it and is less than one below it. *)
Theorem py_int_truncates (y : float) :
  b64_finite y = true ->
  exists n, py_int y = Ok n
    /\ (0 <= value_Q y -> inject_Z n <= value_Q y /\ value_Q y < inject_Z n + 1)%Q
    /\ (value_Q y <= 0 -> inject_Z n - 1 < value_Q y /\ value_Q y <= inject_Z n)%Q.
Proof.
  unfold b64_finite, py_int, value_Q. intros F.
  destruct (Prim2SF y) as [s| | |s m e]; try discriminate F; cbn [trunc_SF SF2Q].
  - exists 0%Z. split; [reflexivity|]. split; intros _; split; try apply Qle_refl; reflexivity.
  - eexists. split; [reflexivity|].
    pose proof (shift_bounds m e) as [Hlo Hhi].
    pose proof (pos_value_Q m e) as Hpos.
    destruct s; cbn [cond_Zopp].
    + change (Z.neg m) with (- Zpos m)%Z. rewrite !inject_Z_opp.
      set (w := (inject_Z (Zpos m) * (2 # 1) ^ e)%Q) in *.
      replace (- inject_Z (Zpos m) * (2 # 1) ^ e)%Q with (- inject_Z (Zpos m) * (2 # 1) ^ e)%Q by reflexivity.
      assert (E : (- inject_Z (Z.pos m) * (2 # 1) ^ e == - w)%Q) by (unfold w; ring).
      rewrite E. split; intros H; split; lra.
    + set (w := (inject_Z (Zpos m) * (2 # 1) ^ e)%Q) in *.
      split; intros H; split; lra.
Qed.

Lemma py_int_truncates_witness :
  exists n, py_int 0x1.1249249249248p+6%float = Ok n
    /\ (0 <= value_Q 0x1.1249249249248p+6%float ->
        inject_Z n <= value_Q 0x1.1249249249248p+6%float
        /\ value_Q 0x1.1249249249248p+6%float < inject_Z n + 1)%Q
    /\ (value_Q 0x1.1249249249248p+6%float <= 0 ->
        inject_Z n - 1 < value_Q 0x1.1249249249248p+6%float
        /\ value_Q 0x1.1249249249248p+6%float <= inject_Z n)%Q.
Proof.
  apply (py_int_truncates 0x1.1249249249248p+6%float). vm_compute. reflexivity.
Defined.

(** py_max *)

Lemma b64_not_nan (y : float) : PrimFloat.eqb y y = true -> Prim2SF y <> S754_nan.
Proof.
  rewrite FloatAxioms.eqb_spec, SFeqb_refl. intros H E. rewrite E in H. discriminate H.
Qed.

Lemma b64_ltb_key (a b : float) :
  PrimFloat.eqb a a = true -> PrimFloat.eqb b b = true ->
  (PrimFloat.ltb a b = true <-> (fkey a < fkey b)%Z).
Proof.
  intros Ha Hb. rewrite ltb_spec. unfold fkey.
  apply SFltb_key; try apply Prim2SF_valid; apply b64_not_nan; assumption.
Qed.

Lemma b64_leb_key (a b : float) :
  PrimFloat.eqb a a = true -> PrimFloat.eqb b b = true ->
  (PrimFloat.leb a b = true <-> (fkey a <= fkey b)%Z).
Proof.
  intros Ha Hb. rewrite leb_spec. unfold fkey.
  apply SFleb_key; try apply Prim2SF_valid; apply b64_not_nan; assumption.
Qed.

Lemma max_from_spec (l : list float) (cur : float) :
  PrimFloat.eqb cur cur = true ->
  Forall (fun y => PrimFloat.eqb y y = true) l ->
  In (max_from cur l) (cur :: l)
  /\ PrimFloat.eqb (max_from cur l) (max_from cur l) = true
  /\ (fkey cur <= fkey (max_from cur l))%Z
  /\ Forall (fun y => (fkey y <= fkey (max_from cur l))%Z) l.
Proof.
  revert cur. induction l as [|v l IH]; intros cur Hc Hl; cbn [max_from].
  - split; [left; reflexivity|]. split; [exact Hc|]. split; [lia|constructor].
  - inversion Hl as [|? ? Hv Hl']; subst.
    destruct (PrimFloat.ltb cur v) eqn:E.
    + apply (b64_ltb_key cur v Hc Hv) in E.
      destruct (IH v Hv Hl') as (Hin & Hn & Hge & Hall).
      split; [right; exact Hin|]. split; [exact Hn|]. split; [lia|].
      constructor; [exact Hge|exact Hall].
    + assert (Hle : (fkey v <= fkey cur)%Z).
      { destruct (Z.le_gt_cases (fkey v) (fkey cur)) as [|Hgt]; [assumption|].
        apply (b64_ltb_key cur v Hc Hv) in Hgt. congruence. }
      destruct (IH cur Hc Hl') as (Hin & Hn & Hge & Hall).
      split; [destruct Hin as [<-|Hin]; [left; reflexivity|right; right; exact Hin]|].
      split; [exact Hn|]. split; [exact Hge|].
      constructor; [lia|exact Hall].
Qed.

(** X10. On a non-empty sequence without NaN, [max] returns one of its
    elements, and no element is greater; on an empty one it raises
    [ValueError] ([py_max_empty]). *)
Theorem py_max_spec (v : float) (l : list float) :
  Forall (fun y => PrimFloat.eqb y y = true) (v :: l) ->
  exists top, py_max (v :: l) = Ok top
    /\ In top (v :: l)
    /\ Forall (fun y => PrimFloat.leb y top = true) (v :: l).
Proof.
  intros H. inversion H as [|? ? Hv Hl]; subst.
  destruct (max_from_spec l v Hv Hl) as (Hin & Hn & Hge & Hall).
  exists (max_from v l). split; [reflexivity|]. split; [exact Hin|].
  constructor.
  - apply b64_leb_key; assumption.
  - rewrite Forall_forall in *. intros y Hy.
    apply b64_leb_key; [apply Hl; exact Hy|exact Hn|apply Hall; exact Hy].
Qed.

Lemma py_max_spec_witness :
  exists top, py_max [1%float; 3%float; 2%float] = Ok top
    /\ In top [1%float; 3%float; 2%float]
    /\ Forall (fun y => PrimFloat.leb y top = true) [1%float; 3%float; 2%float].
Proof.
  apply (py_max_spec 1%float [3%float; 2%float]).
  repeat constructor.
Defined.

Lemma py_max_empty : py_max [] = Raise ValueError.
Proof. reflexivity. Qed.

(** linspace *)
Lemma set_last_length (y : list float) (stop : float) :
  List.length (set_last y stop) = List.length y.
Proof.
  destruct y as [|a y]; [reflexivity|]. unfold set_last.
  rewrite length_app. cbn [List.length]. rewrite Nat.add_1_r. f_equal.
  revert a. induction y as [|b y IH]; intros a; [reflexivity|].
  cbn [removelast List.length] in *. rewrite IH. reflexivity.
Qed.

Lemma set_last_last (y : list float) (stop d : float) :
  y <> [] -> last (set_last y stop) d = stop.
Proof.
  intros H. destruct y as [|a y]; [contradiction|]. unfold set_last.
  apply last_last.
Qed.

(** X11. [numpy.linspace(start, stop, num)] has [num] elements; for
    [num >= 2] its last element is [stop] itself, not a rounded sum; for
    [num = 0] it is empty. *)
Theorem linspace_spec (start stop d : float) (num : nat) :
  List.length (linspace start stop num) = num
  /\ last (linspace start stop (S (S num))) d = stop
  /\ linspace start stop 0 = [].
Proof.
  split; [|split].
  - unfold linspace.
    destruct (1 <? num)%nat; [rewrite set_last_length|];
      rewrite length_map; destruct (num - 1)%nat;
      try destruct (PrimFloat.eqb _ _); rewrite length_map, length_map, length_seq;
      reflexivity.
  - unfold linspace. change (1 <? S (S num))%nat with true. cbv iota.
    apply set_last_last.
    intros E. apply (f_equal (@List.length float)) in E.
    rewrite length_map in E.
    destruct (S (S num) - 1)%nat; try destruct (PrimFloat.eqb _ _);
      rewrite length_map, length_map, length_seq in E; discriminate E.
  - reflexivity.
Qed.
